(** * Crop geometry and detection debounce of the id-scanner camera screens

    JavaScript numbers used by the crop math are modelled as rationals [Q]
    (the inputs used below are exact in binary floating point as well), the
    integers handed to the crop executor as [Z], timestamps ([Date.now()])
    as [Z] milliseconds. *)

From Stdlib Require Import ZArith QArith Qminmax Qround Lia Lqa List Bool Morphisms.
From Stdlib Require Strings.String Strings.Ascii.
Import ListNotations.


(** ** Small JavaScript helpers *)

Module JS.

Local Open Scope Q_scope.

(** [Math.round x]: the nearest integer, halves rounded up. *)
Definition round (x : Q) : Z := Qfloor (x + (1 # 2)).

(** [a || b] on a number: [0] is falsy. *)
Definition or_num (a b : Q) : Q := if Qeq_bool a 0 then b else a.

End JS.

(** ** CameraOverlayCrop (src/unnamed/part_000) *)

Module Overlay.

Local Open Scope Q_scope.

Record RectPercentage := mkRect { x1 : Q; y1 : Q; x2 : Q; y2 : Q }.

Definition DEFAULT_RECT : RectPercentage :=
  mkRect (1 # 10) (3 # 10) (9 # 10) (7 # 10).

(** The [rect] memo: clamp each component to [0,1], then order corners. *)
Definition normalize_rect (rectPercentage : RectPercentage) : RectPercentage :=
  let x1 := Qmax 0 (Qmin rectPercentage.(x1) 1) in
  let y1 := Qmax 0 (Qmin rectPercentage.(y1) 1) in
  let x2 := Qmax 0 (Qmin rectPercentage.(x2) 1) in
  let y2 := Qmax 0 (Qmin rectPercentage.(y2) 1) in
  mkRect (Qmin x1 x2) (Qmin y1 y2) (Qmax x1 x2) (Qmax y1 y2).

Inductive ResizeMode := Cover | Contain.

(** [photo.width], [photo.height] as reported by [takePhoto]. *)
Record Photo := mkPhoto { photo_width : Z; photo_height : Z }.

(** [cameraLayout]; [{ width: 0, height: 0 }] until [onLayout] fires. *)
Record Layout := mkLayout { layout_width : Q; layout_height : Q }.

Definition unmeasured : Layout := mkLayout 0 0.

Record CropRegion := mkCrop { originX : Z; originY : Z; width : Z; height : Z }.

(** The intermediate (unrounded) values of [grabImage]. *)
Record Geometry := mkGeom {
  previewW : Q; previewH : Q; scale : Q;
  offsetX : Q; offsetY : Q;
  rawX : Q; rawY : Q; rawW : Q; rawH : Q }.

Definition grabImage_geometry (resizeMode : ResizeMode) (cameraLayout : Layout)
    (rectPercentage : RectPercentage) (photo : Photo) : Geometry :=
  let rect := normalize_rect rectPercentage in
  let pw := inject_Z photo.(photo_width) in
  let ph := inject_Z photo.(photo_height) in
  let previewW := JS.or_num cameraLayout.(layout_width) pw in
  let previewH := JS.or_num cameraLayout.(layout_height) ph in
  let scale :=
    match resizeMode with
    | Cover => Qmax (previewW / pw) (previewH / ph)
    | Contain => Qmin (previewW / pw) (previewH / ph)
    end in
  let visibleW := pw * scale in
  let visibleH := ph * scale in
  let offsetX := (previewW - visibleW) / 2 in
  let offsetY := (previewH - visibleH) / 2 in
  let rawX := (rect.(x1) * previewW - offsetX) / scale in
  let rawY := (rect.(y1) * previewH - offsetY) / scale in
  let rawW := ((rect.(x2) - rect.(x1)) * previewW) / scale in
  let rawH := ((rect.(y2) - rect.(y1)) * previewH) / scale in
  mkGeom previewW previewH scale offsetX offsetY rawX rawY rawW rawH.

(** The crop rectangle [grabImage] passes to [ImageUtils.crop]. *)
Definition grabImage_crop (resizeMode : ResizeMode) (cameraLayout : Layout)
    (rectPercentage : RectPercentage) (photo : Photo) : CropRegion :=
  let g := grabImage_geometry resizeMode cameraLayout rectPercentage photo in
  let W := photo.(photo_width) in
  let H := photo.(photo_height) in
  let originX := Z.max 0 (Z.min (JS.round g.(rawX)) (W - 1)%Z) in
  let originY := Z.max 0 (Z.min (JS.round g.(rawY)) (H - 1)%Z) in
  let width := Z.min (JS.round g.(rawW)) (W - originX)%Z in
  let height := Z.min (JS.round g.(rawH)) (H - originY)%Z in
  mkCrop originX originY width height.

End Overlay.

(** ** calculateCropRegion (src/unnamed/part_001) *)

Module IDScanner.

Local Open Scope Q_scope.

(** Its result fields are JS numbers: [width] and [height] need not be
    integers, so the record holds rationals. *)
Record ActionCrop := mkAction { a_originX : Q; a_originY : Q; a_width : Q; a_height : Q }.

Definition calculateCropRegion (photoWidth photoHeight previewWidth previewHeight
    frameX frameY frameWidth frameHeight : Q) : ActionCrop :=
  let screenAspect := previewWidth / previewHeight in
  let photoAspect := photoWidth / photoHeight in
  let '(scaleX, scaleY, offsetX, offsetY) :=
    if Qlt_le_dec screenAspect photoAspect then
      let scaleY := photoHeight / previewHeight in
      let scaleX := scaleY in
      let visiblePhotoWidth := previewWidth * scaleX in
      (scaleX, scaleY, (photoWidth - visiblePhotoWidth) / 2, 0)
    else
      let scaleX := photoWidth / previewWidth in
      let scaleY := scaleX in
      let visiblePhotoHeight := previewHeight * scaleY in
      (scaleX, scaleY, 0, (photoHeight - visiblePhotoHeight) / 2) in
  let cropX := offsetX + frameX * scaleX in
  let cropY := offsetY + frameY * scaleY in
  let cropWidth := frameWidth * scaleX in
  let cropHeight := frameHeight * scaleY in
  mkAction (inject_Z (Z.max 0 (JS.round cropX)))
           (inject_Z (Z.max 0 (JS.round cropY)))
           (Qmin (photoWidth - cropX) (inject_Z (JS.round cropWidth)))
           (Qmin (photoHeight - cropY) (inject_Z (JS.round cropHeight))).

End IDScanner.

(** ** Effective photo dimensions in [takeAndCropPhoto]
    (src/components/VisionCropCamera.tsx) and the rotation table of
    [NewIDScanner] (src/components/NewIDScanner.tsx). *)

Module Rotation.

Inductive Orientation := Portrait | PortraitUpsideDown | LandscapeLeft | LandscapeRight.

Definition rotationByOrientation (o : Orientation) : Z :=
  match o with
  | Portrait => 0
  | PortraitUpsideDown => 180
  | LandscapeLeft => 90
  | LandscapeRight => 270
  end.

Inductive Platform := IOS | Android.

(** [(imageWidth, imageHeight)] from [photo.width], [photo.height],
    [photo.orientation] and [cameraLayout]. *)
Definition effective_dims (os : Platform) (orientation : Orientation)
    (photoW photoH : Z) (cameraLayout : Overlay.Layout) : Z * Z :=
  match os with
  | IOS =>
      let needsSwap :=
        match orientation with
        | LandscapeLeft | LandscapeRight => true
        | _ => false
        end in
      if needsSwap then (photoH, photoW) else (photoW, photoH)
  | Android =>
      (* landscape photo on a portrait screen *)
      if (photoH <? photoW)%Z
         && negb (Qle_bool cameraLayout.(Overlay.layout_height)
                           cameraLayout.(Overlay.layout_width))
      then (photoH, photoW) else (photoW, photoH)
  end.

End Rotation.

(** ** Detection debounce of [VisionCropCamera]
    (src/components/VisionCropCamera.tsx): the refs [isCapturing],
    [holdStartTime], [lastDetectionTime] and the state [detectionPhase]. *)

Module Debounce.

Local Open Scope Z_scope.

Definition HOLD_DURATION_MS : Z := 1000.
Definition DETECTION_GRACE_MS : Z := 300.

Inductive DetectionPhase := Scanning | Holding | Ready.

Record DState := mkDState {
  detectionPhase : DetectionPhase;
  holdStartTime : option Z;
  lastDetectionTime : option Z;
  isCapturing : bool }.

Definition initial : DState := mkDState Scanning None None false.

(** [onDetectionSuccess], called at [Date.now() = now]. *)
Definition onDetectionSuccess (now : Z) (s : DState) : DState :=
  if s.(isCapturing) then s else
  match s.(holdStartTime) with
  | None => mkDState Holding (Some now) (Some now) s.(isCapturing)
  | Some hs =>
      let elapsed := now - hs in
      if HOLD_DURATION_MS <=? elapsed
      then mkDState Ready (Some hs) (Some now) s.(isCapturing)
      else mkDState s.(detectionPhase) (Some hs) (Some now) s.(isCapturing)
  end.

(** [onDetectionMissed], called at [Date.now() = now]. *)
Definition onDetectionMissed (now : Z) (s : DState) : DState :=
  if s.(isCapturing) then s else
  match s.(holdStartTime) with
  | None => s
  | Some _ =>
      let lastDetection := match s.(lastDetectionTime) with Some l => l | None => 0 end in
      let timeSinceLastDetection := now - lastDetection in
      if DETECTION_GRACE_MS <=? timeSinceLastDetection
      then mkDState Scanning None None s.(isCapturing)
      else s
  end.

(** The frame processor: [runOnDetectionSuccess] when the ID matched,
    [runOnDetectionMissed] otherwise. *)
Definition step (matched : bool) (now : Z) (s : DState) : DState :=
  if matched then onDetectionSuccess now s else onDetectionMissed now s.

Fixpoint run (evs : list (bool * Z)) (s : DState) : DState :=
  match evs with
  | [] => s
  | (m, t) :: rest => run rest (step m t s)
  end.

(** The phase after each event of a trace. *)
Fixpoint phases (evs : list (bool * Z)) (s : DState) : list DetectionPhase :=
  match evs with
  | [] => []
  | (m, t) :: rest =>
      let s' := step m t s in s'.(detectionPhase) :: phases rest s'
  end.

(** The [finally] block of [takeAndCropPhoto]. *)
Definition reset (s : DState) : DState := mkDState Scanning None None false.

(** The elapsed time [onDetectionSuccess] compares with the hold duration
    ([now - holdStartTime.current]), when a hold has started. *)
Definition success_elapsed (now : Z) (s : DState) : option Z :=
  match s.(holdStartTime) with
  | Some hs => Some (now - hs)
  | None => None
  end.

End Debounce.

(** ** Auto-capture of [VisionCropCamera]: the [useEffect] on
    [detectionPhase], the capture button and the asynchronous
    [takeAndCropPhoto], whose [finally] block runs when the capture ends. *)

Module Controller.

Import Debounce.

Record CState := mkCState {
  det : DState;
  croppedImage : bool;      (* [croppedImage !== null] *)
  cameraMounted : bool;     (* [camera.current !== null] *)
  captures : nat }.         (* calls of [camera.current.takePhoto] *)

Inductive Event :=
  | Frame (matched : bool) (now : Z)  (* a frame-processor result *)
  | AutoEffect                        (* the auto-capture [useEffect] runs *)
  | Press                             (* the capture button *)
  | Finish (ok : bool)                (* the pending capture settles *)
  | Retake.                           (* the "Retake Photo" button *)

(** The synchronous part of [takeAndCropPhoto], up to [await takePhoto]. *)
Definition takeAndCropPhoto_start (c : CState) : CState :=
  if negb c.(cameraMounted) || c.(det).(isCapturing) then c else
  let d := c.(det) in
  mkCState (mkDState d.(detectionPhase) d.(holdStartTime) d.(lastDetectionTime) true)
           c.(croppedImage) c.(cameraMounted) (S c.(captures)).

(** The rest of [takeAndCropPhoto]: on success [setCroppedImage], then the
    [finally] block in both cases. *)
Definition takeAndCropPhoto_finish (ok : bool) (c : CState) : CState :=
  if c.(det).(isCapturing) then
    mkCState (reset c.(det)) (ok || c.(croppedImage)) c.(cameraMounted) c.(captures)
  else c.

Definition is_ready (p : DetectionPhase) : bool :=
  match p with Ready => true | _ => false end.

Definition handle (e : Event) (c : CState) : CState :=
  match e with
  | Frame m t => mkCState (step m t c.(det)) c.(croppedImage) c.(cameraMounted) c.(captures)
  | AutoEffect =>
      if is_ready c.(det).(detectionPhase) && negb c.(croppedImage)
         && negb c.(det).(isCapturing)
      then takeAndCropPhoto_start c else c
  | Press => takeAndCropPhoto_start c
  | Finish ok => takeAndCropPhoto_finish ok c
  | Retake =>
      let d := c.(det) in
      mkCState (mkDState Scanning None None d.(isCapturing)) false c.(cameraMounted) c.(captures)
  end.

Fixpoint run_events (es : list Event) (c : CState) : CState :=
  match es with
  | [] => c
  | e :: rest => run_events rest (handle e c)
  end.

Definition is_finish (e : Event) : bool :=
  match e with Finish _ => true | _ => false end.

End Controller.

Import Overlay.
Open Scope Q_scope.

(** ** MRZ line detection: [detectMRZLines] (src/unnamed/part_001)

    Strings are Rocq strings of 8-bit characters; the character classes and
    [toUpperCase] are those of 7-bit ASCII text (JavaScript's Unicode case
    mappings and Unicode spaces beyond ASCII are not modelled). *)

Module MRZ.

Import Strings.String Strings.Ascii.

Definition code (c : ascii) : nat := nat_of_ascii c.

Definition is_digit (c : ascii) : bool := (48 <=? code c)%nat && (code c <=? 57)%nat.
Definition is_upper (c : ascii) : bool := (65 <=? code c)%nat && (code c <=? 90)%nat.
Definition is_lower (c : ascii) : bool := (97 <=? code c)%nat && (code c <=? 122)%nat.
(** [\s] on ASCII: space, tab, line feed, vertical tab, form feed, carriage return. *)
Definition is_space (c : ascii) : bool :=
  (code c =? 32)%nat || ((9 <=? code c)%nat && (code c <=? 13)%nat).
Definition is_newline (c : ascii) : bool := (code c =? 10)%nat.

Definition to_upper_char (c : ascii) : ascii :=
  if is_lower c then ascii_of_nat (code c - 32) else c.

(** [text.split('\n')]: an empty piece before each separator and at the end
    are kept. *)
Fixpoint split_lines (s : string) : list string :=
  match s with
  | EmptyString => [EmptyString]
  | String c rest =>
      if is_newline c then EmptyString :: split_lines rest
      else match split_lines rest with
           | [] => [String c EmptyString]
           | w :: ws => String c w :: ws
           end
  end.

Fixpoint drop_spaces (l : list ascii) : list ascii :=
  match l with
  | [] => []
  | c :: r => if is_space c then drop_spaces r else l
  end.

(** [line.trim()] *)
Definition trim (s : string) : string :=
  string_of_list_ascii (rev (drop_spaces (rev (drop_spaces (list_ascii_of_string s))))).

(** [line.toUpperCase()] *)
Definition toUpperCase (s : string) : string :=
  string_of_list_ascii (map to_upper_char (list_ascii_of_string s)).

(** [line.replace(/\s/g, '')] *)
Definition remove_whitespace (s : string) : string :=
  string_of_list_ascii (filter (fun c => negb (is_space c)) (list_ascii_of_string s)).

Definition normalize_line (line : string) : string :=
  remove_whitespace (toUpperCase (trim line)).

Definition is_mrz_char (c : ascii) : bool := is_upper c || is_digit c || (code c =? 60)%nat.

(** [MRZ_LINE_PATTERN.test(line)] for [/^[A-Z0-9<]{30,44}$/]. *)
Definition MRZ_LINE_PATTERN (line : string) : bool :=
  (30 <=? String.length line)%nat && (String.length line <=? 44)%nat
  && forallb is_mrz_char (list_ascii_of_string line).

Definition detectMRZLines (text : string) : option (list string) :=
  let lines := filter MRZ_LINE_PATTERN (map normalize_line (split_lines text)) in
  if (2 <=? List.length lines)%nat
  then Some (firstn (if (3 <=? List.length lines)%nat then 3 else 2) lines)
  else None.

Definition newline : string := String (ascii_of_nat 10) EmptyString.

End MRZ.

(** ** [overlayStyle] of CameraOverlayCrop (src/unnamed/part_000) *)

Module OverlayStyle.

Local Open Scope Q_scope.

Record Style := mkStyle { style_left : Q; style_top : Q; style_width : Q; style_height : Q }.

(** [null] while [cameraLayout.width] or [cameraLayout.height] is falsy
    ([0]); otherwise the normalised rectangle scaled to the layout. *)
Definition overlayStyle (rectPercentage : RectPercentage) (cameraLayout : Layout) : option Style :=
  let rect := normalize_rect rectPercentage in
  if Qeq_bool cameraLayout.(layout_width) 0 || Qeq_bool cameraLayout.(layout_height) 0
  then None
  else Some (mkStyle (rect.(x1) * cameraLayout.(layout_width))
                     (rect.(y1) * cameraLayout.(layout_height))
                     ((rect.(x2) - rect.(x1)) * cameraLayout.(layout_width))
                     ((rect.(y2) - rect.(y1)) * cameraLayout.(layout_height))).

End OverlayStyle.

(** ** Manual capture of IDScanner (src/unnamed/part_001): [frameLayout],
    [handlePreviewLayout] and the crop of [capturePhotoManually].
    [previewSize] is a [Layout]. *)

Module Manual.

Local Open Scope Q_scope.

Definition FRAME_ASPECT_RATIO : Q := 1586 # 1000.
Definition FRAME_WIDTH_PERCENT : Q := 85 # 100.

Record FrameLayout := mkFrame { frameWidth : Q; frameHeight : Q; frameX : Q; frameY : Q }.

Definition frameLayout (previewSize : Layout) (frameAspectRatio : Q) : FrameLayout :=
  let frameWidth := previewSize.(layout_width) * FRAME_WIDTH_PERCENT in
  let frameHeight := frameWidth / frameAspectRatio in
  let frameX := (previewSize.(layout_width) - frameWidth) / 2 in
  let frameY := (previewSize.(layout_height) - frameHeight) / 2 in
  mkFrame frameWidth frameHeight frameX frameY.

(** [handlePreviewLayout] (also in src/components/NewIDScanner.tsx): a
    falsy width or height is ignored; the size is set when it changed. *)
Definition handlePreviewLayout (previewSize : Layout) (width height : Q) : Layout :=
  if Qeq_bool width 0 || Qeq_bool height 0 then previewSize
  else if negb (Qeq_bool width previewSize.(layout_width))
          || negb (Qeq_bool height previewSize.(layout_height))
  then mkLayout width height
  else previewSize.

(** A sequence of [onLayout] events [(width, height)]. *)
Fixpoint layout_events (evs : list (Q * Q)) (previewSize : Layout) : Layout :=
  match evs with
  | [] => previewSize
  | (w, h) :: rest => layout_events rest (handlePreviewLayout previewSize w h)
  end.

(** The crop region [capturePhotoManually] hands to [manipulateAsync]. *)
Definition capturePhotoManually_crop (photo : Photo) (previewSize : Layout)
    (frameAspectRatio : Q) : IDScanner.ActionCrop :=
  let fl := frameLayout previewSize frameAspectRatio in
  IDScanner.calculateCropRegion (inject_Z photo.(photo_width)) (inject_Z photo.(photo_height))
    previewSize.(layout_width) previewSize.(layout_height)
    fl.(frameX) fl.(frameY) fl.(frameWidth) fl.(frameHeight).

End Manual.

(** ** [capturePhoto] of NewIDScanner (src/components/NewIDScanner.tsx):
    a [contain] preview and a centred 300x300 overlay; [imgW], [imgH] are
    the size of the rotated image. *)

Module NewID.

Local Open Scope Q_scope.

Definition OVERLAY_SIZE : Q := 300.

Definition capturePhoto_crop (previewSize : Layout) (imgW imgH : Z) : CropRegion :=
  let iw := inject_Z imgW in
  let ih := inject_Z imgH in
  let previewW := JS.or_num previewSize.(layout_width) iw in
  let previewH := JS.or_num previewSize.(layout_height) ih in
  let scale := Qmin (previewW / iw) (previewH / ih) in
  let visibleW := iw * scale in
  let visibleH := ih * scale in
  let offsetX := (previewW - visibleW) / 2 in
  let offsetY := (previewH - visibleH) / 2 in
  let frameX := (previewW - OVERLAY_SIZE) / 2 in
  let frameY := (previewH - OVERLAY_SIZE) / 2 in
  let rawCropX := (frameX - offsetX) / scale in
  let rawCropY := (frameY - offsetY) / scale in
  let rawCropW := OVERLAY_SIZE / scale in
  let rawCropH := OVERLAY_SIZE / scale in
  let originX := Z.max 0 (Z.min (JS.round rawCropX) (imgW - 1)) in
  let originY := Z.max 0 (Z.min (JS.round rawCropY) (imgH - 1)) in
  let width := Z.min (JS.round rawCropW) (imgW - originX) in
  let height := Z.min (JS.round rawCropH) (imgH - originY) in
  mkCrop originX originY width height.

End NewID.

(** ** Frame bounds, OCR match and crop of VisionCropCamera
    (src/components/VisionCropCamera.tsx). [Dimensions.get('window')] is a
    parameter [Screen]. *)

Module Vision.

Local Open Scope Q_scope.

Record Screen := mkScreen { SCREEN_WIDTH : Q; SCREEN_HEIGHT : Q }.

Definition FRAME_WIDTH (s : Screen) : Q := s.(SCREEN_WIDTH) - 40.
Definition FRAME_HEIGHT (s : Screen) : Q := FRAME_WIDTH s / (1586 # 1000).
Definition FRAME_X (s : Screen) : Q := (s.(SCREEN_WIDTH) - FRAME_WIDTH s) / 2.
Definition FRAME_Y (s : Screen) : Q := (s.(SCREEN_HEIGHT) - FRAME_HEIGHT s) / 2.
Definition BOUNDS_PADDING : Q := 2 # 10.

Record Bounds := mkBounds { b_left : Q; b_top : Q; b_right : Q; b_bottom : Q }.

(** [scaleX], [scaleY], [offsetX], [offsetY] of [getFrameBounds]. *)
Definition frame_transform (s : Screen) (frameWidth frameHeight : Q) : Q * Q * Q * Q :=
  let screenAspect := s.(SCREEN_WIDTH) / s.(SCREEN_HEIGHT) in
  let frameAspect := frameWidth / frameHeight in
  if Qlt_le_dec screenAspect frameAspect then
    let scaleY := frameHeight / s.(SCREEN_HEIGHT) in
    let scaleX := scaleY in
    (scaleX, scaleY, (frameWidth - s.(SCREEN_WIDTH) * scaleX) / 2, 0)
  else
    let scaleX := frameWidth / s.(SCREEN_WIDTH) in
    let scaleY := scaleX in
    (scaleX, scaleY, 0, (frameHeight - s.(SCREEN_HEIGHT) * scaleY) / 2).

Definition getFrameBounds (s : Screen) (frameWidth frameHeight : Q) : Bounds :=
  let '(scaleX, scaleY, offsetX, offsetY) := frame_transform s frameWidth frameHeight in
  let left := FRAME_X s * scaleX + offsetX in
  let top := FRAME_Y s * scaleY + offsetY in
  let right := (FRAME_X s + FRAME_WIDTH s) * scaleX + offsetX in
  let bottom := (FRAME_Y s + FRAME_HEIGHT s) * scaleY + offsetY in
  let horizontalPadding := (right - left) * BOUNDS_PADDING in
  let verticalPadding := (bottom - top) * BOUNDS_PADDING in
  mkBounds (left - horizontalPadding) (top - verticalPadding)
           (right + horizontalPadding) (bottom + verticalPadding).

Definition isWithinFrame (x y : Q) (bounds : Bounds) : bool :=
  Qle_bool bounds.(b_left) x && Qle_bool x bounds.(b_right)
  && Qle_bool bounds.(b_top) y && Qle_bool y bounds.(b_bottom).

(** The crop of [takeAndCropPhoto] from the effective image size
    [(imageWidth, imageHeight)] and [cameraLayout]. *)
Definition crop_of_image (s : Screen) (imageWidth imageHeight : Q) (cameraLayout : Layout)
    : CropRegion :=
  let previewAspect := cameraLayout.(layout_width) / cameraLayout.(layout_height) in
  let photoAspect := imageWidth / imageHeight in
  let '(scaleX, scaleY, offsetX, offsetY) :=
    if Qlt_le_dec previewAspect photoAspect then
      let scaleY := imageHeight / cameraLayout.(layout_height) in
      let scaleX := scaleY in
      (scaleX, scaleY, (imageWidth - cameraLayout.(layout_width) * scaleX) / 2, 0)
    else
      let scaleX := imageWidth / cameraLayout.(layout_width) in
      let scaleY := scaleX in
      (scaleX, scaleY, 0, (imageHeight - cameraLayout.(layout_height) * scaleY) / 2) in
  let cropX := Qmax 0 (FRAME_X s * scaleX + offsetX) in
  let cropY := Qmax 0 (FRAME_Y s * scaleY + offsetY) in
  let cropWidth := Qmin (FRAME_WIDTH s * scaleX) (imageWidth - cropX) in
  let cropHeight := Qmin (FRAME_HEIGHT s * scaleY) (imageHeight - cropY) in
  mkCrop (JS.round cropX) (JS.round cropY) (JS.round cropWidth) (JS.round cropHeight).

(** [takeAndCropPhoto] of the first component (platform-dependent swap). *)
Definition takeAndCropPhoto_crop (s : Screen) (os : Rotation.Platform)
    (orientation : Rotation.Orientation) (photo : Photo) (cameraLayout : Layout) : CropRegion :=
  let '(imageWidth, imageHeight) :=
    Rotation.effective_dims os orientation photo.(photo_width) photo.(photo_height) cameraLayout in
  crop_of_image s (inject_Z imageWidth) (inject_Z imageHeight) cameraLayout.

(** [takeAndCropPhoto] of the second component: the swap by orientation
    on every platform. *)
Definition takeAndCropPhoto_crop2 (s : Screen) (orientation : Rotation.Orientation)
    (photo : Photo) (cameraLayout : Layout) : CropRegion :=
  let needsSwap :=
    match orientation with
    | Rotation.LandscapeLeft | Rotation.LandscapeRight => true
    | _ => false
    end in
  let imageWidth := if needsSwap then photo.(photo_height) else photo.(photo_width) in
  let imageHeight := if needsSwap then photo.(photo_width) else photo.(photo_height) in
  crop_of_image s (inject_Z imageWidth) (inject_Z imageHeight) cameraLayout.

End Vision.

(** ** The OCR test of the frame processors of VisionCropCamera *)

Module OCR.

Import Strings.String Strings.Ascii MRZ.

Record BlockFrame := mkBlockFrame {
  bf_x : Q; bf_y : Q; bf_width : Q; bf_height : Q;
  boundingCenterX : option Q; boundingCenterY : option Q }.

Record Block := mkBlock { blockFrame : option BlockFrame; blockText : option string }.

(** [blockFrame.boundingCenterX || (blockFrame.x + blockFrame.width / 2)] *)
Definition center (c : option Q) (fallback : Q) : Q :=
  match c with
  | Some v => JS.or_num v fallback
  | None => fallback
  end.

(** The text a block pushes to [filteredText]: its [blockText] when its
    centre is within the bounds and the text is truthy (non-empty). *)
Definition block_text_in (bounds : Vision.Bounds) (block : Block) : list string :=
  match block.(blockFrame) with
  | None => []
  | Some bf =>
      let centerX := center bf.(boundingCenterX) (bf.(bf_x) + bf.(bf_width) / 2) in
      let centerY := center bf.(boundingCenterY) (bf.(bf_y) + bf.(bf_height) / 2) in
      if Vision.isWithinFrame centerX centerY bounds then
        match block.(blockText) with
        | Some t => if String.eqb t EmptyString then [] else [t]
        | None => []
        end
      else []
  end.

Definition filteredText (bounds : Vision.Bounds) (blocks : list Block) : list string :=
  flat_map (block_text_in bounds) blocks.

Definition to_lower_char (c : ascii) : ascii :=
  if is_upper c then ascii_of_nat (code c + 32) else c.

(** [text.toLowerCase()] *)
Definition toLowerCase (s : string) : string :=
  string_of_list_ascii (map to_lower_char (list_ascii_of_string s)).

(** [/\d{10}/] matches at the start of [s]. *)
Definition digits10_at (s : string) : bool :=
  (10 <=? String.length s)%nat && forallb is_digit (list_ascii_of_string (substring 0 10 s)).

(** [text.match(/\d{10}/)] is non-null: a match at some position. *)
Fixpoint match_digits10 (s : string) : bool :=
  digits10_at s || match s with
                   | EmptyString => false
                   | String _ rest => match_digits10 rest
                   end.

(** [s.includes(p)] *)
Fixpoint includes (s p : string) : bool :=
  prefix p s || match s with
                | EmptyString => false
                | String _ rest => includes rest p
                end.

Definition idDetected_text (text : string) : bool :=
  let textLower := toLowerCase text in
  let nationalIdMatch := match_digits10 text in
  let hasName := includes textLower "name"%string in
  let hasHashemite := includes textLower "hashemite"%string in
  nationalIdMatch && hasName && hasHashemite.

(** [idDetected] of a frame processor for the OCR [blocks]. *)
Definition idDetected (bounds : Vision.Bounds) (blocks : list Block) : bool :=
  if (0 <? List.length blocks)%nat then
    let filtered := filteredText bounds blocks in
    if (0 <? List.length filtered)%nat
    then idDetected_text (String.concat " "%string filtered)
    else false
  else false.

End OCR.

(** ** The detection latch of the second VisionCropCamera component
    ([textDetected], [detectionTriggered], [isCapturing]) with its
    auto-capture effect, capture button, [finally] block and retake
    button. *)

Module Latch.

Record LState := mkLState {
  textDetected : bool;
  detectionTriggered : bool;
  isCapturing : bool;
  croppedImage : bool;      (* [croppedImage !== null] *)
  cameraMounted : bool;     (* [camera.current !== null] *)
  captures : nat }.         (* calls of [camera.current.takePhoto] *)

Definition initial (mounted : bool) : LState := mkLState false false false false mounted 0.

Inductive LEvent :=
  | Frame (matched : bool)  (* a frame-processor run; [matched]: [runOnTextDetected] *)
  | AutoEffect              (* the auto-capture [useEffect] runs *)
  | Press                   (* the capture button *)
  | Finish (ok : bool)      (* the pending capture settles *)
  | Retake.                 (* the "Retake Photo" button *)

Definition onTextDetected (c : LState) : LState :=
  if c.(detectionTriggered) || c.(isCapturing) then c else
  mkLState true true c.(isCapturing) c.(croppedImage) c.(cameraMounted) c.(captures).

Definition takeAndCropPhoto_start (c : LState) : LState :=
  if negb c.(cameraMounted) || c.(isCapturing) then c else
  mkLState c.(textDetected) c.(detectionTriggered) true c.(croppedImage) c.(cameraMounted)
           (S c.(captures)).

Definition takeAndCropPhoto_finish (ok : bool) (c : LState) : LState :=
  if c.(isCapturing) then
    mkLState false false false (ok || c.(croppedImage)) c.(cameraMounted) c.(captures)
  else c.

Definition handle (e : LEvent) (c : LState) : LState :=
  match e with
  | Frame m => if m then onTextDetected c else c
  | AutoEffect =>
      if c.(textDetected) && negb c.(croppedImage) && negb c.(isCapturing)
      then takeAndCropPhoto_start c else c
  | Press => takeAndCropPhoto_start c
  | Finish ok => takeAndCropPhoto_finish ok c
  | Retake => mkLState false false c.(isCapturing) false c.(cameraMounted) c.(captures)
  end.

Fixpoint run (es : list LEvent) (c : LState) : LState :=
  match es with
  | [] => c
  | e :: rest => run rest (handle e c)
  end.

Definition is_press (e : LEvent) : bool := match e with Press => true | _ => false end.
Definition is_match (e : LEvent) : bool := match e with Frame true => true | _ => false end.

End Latch.

(** ** The scale factor as the spec words it
    ([scaleCover = max(sw/vw, sh/vh)], [scaleContain = min(sw/vw, sh/vh)],
    sensor pixels per viewport pixel), to be compared with [grabImage]. *)

Module SpecWords.

Local Open Scope Q_scope.

Definition spec_scale (fit : Overlay.ResizeMode) (sw sh vw vh : Q) : Q :=
  match fit with
  | Overlay.Cover => Qmax (sw / vw) (sh / vh)
  | Overlay.Contain => Qmin (sw / vw) (sh / vh)
  end.

End SpecWords.

(** ** Debounce state machine *)

Module DebounceFacts.

Import Debounce.

Lemma step_isCapturing (m : bool) (now : Z) (s : DState) :
  isCapturing (step m now s) = isCapturing s.
Proof.
  destruct m; unfold step, onDetectionSuccess, onDetectionMissed;
    destruct (isCapturing s) eqn:Hc; auto;
    destruct (holdStartTime s); auto;
    repeat match goal with |- context [if ?b then _ else _] => destruct b end; auto.
Qed.

Lemma step_while_capturing (m : bool) (now : Z) (s : DState) :
  isCapturing s = true -> step m now s = s.
Proof.
  intros Hc. destruct m; unfold step, onDetectionSuccess, onDetectionMissed;
    rewrite Hc; reflexivity.
Qed.

(** C4: with [HOLD_DURATION_MS = 1000] and [DETECTION_GRACE_MS = 300], the
    trace true@0, true@500, false@600, true@700, true@1200 is in [Holding]
    after each of the first four events and reaches [Ready] at the fifth; the
    false gap of 100 ms leaves the hold start at 0. *)
Theorem C4_grace_keeps_hold_clock :
  HOLD_DURATION_MS = 1000%Z /\ DETECTION_GRACE_MS = 300%Z /\
  phases [(true, 0%Z); (true, 500%Z); (false, 600%Z); (true, 700%Z); (true, 1200%Z)] initial
    = [Holding; Holding; Holding; Holding; Ready] /\
  holdStartTime (run [(true, 0%Z); (true, 500%Z); (false, 600%Z); (true, 700%Z)] initial)
    = Some 0%Z.
Proof. repeat split; reflexivity. Qed.

(** C3 (counterexample): [Ready] is not sticky under [step]: after true@0 and
    true@1000 the phase is [Ready], and a missed detection at 1300 (300 ms
    after the last match, no capture in flight) returns it to [Scanning]. *)
Lemma C3_ready_left_by_missed_detection :
  let s := run [(true, 0%Z); (true, 1000%Z)] initial in
  detectionPhase s = Ready /\ isCapturing s = false /\
  detectionPhase (step false 1300 s) = Scanning.
Proof. repeat split; reflexivity. Qed.

(** In every state the handlers reach from [initial], a phase other than
    [Scanning] comes with a started hold. *)
Lemma run_phase_has_hold (evs : list (bool * Z)) :
  forall s, (detectionPhase s <> Scanning -> holdStartTime s <> None) ->
  detectionPhase (run evs s) <> Scanning -> holdStartTime (run evs s) <> None.
Proof.
  induction evs as [|[m t] evs IH]; intros s Hinv; cbn; [exact Hinv|].
  apply IH. clear IH.
  destruct s as [p hs lt cap]; cbn in Hinv.
  destruct m; unfold step, onDetectionSuccess, onDetectionMissed; cbn;
    destruct cap; cbn; auto; destruct hs as [h|]; cbn;
    try (intros _; discriminate);
    repeat match goal with |- context [if ?b then _ else _] => destruct b end;
    cbn; auto; intros _; discriminate.
Qed.

(** The component's events (frames, the auto-capture effect, the capture
    button, the end of a capture, retake) keep that a phase other than
    [Scanning] comes with a started hold. *)
Lemma handle_phase_has_hold (e : Controller.Event) (c : Controller.CState) :
  (detectionPhase (Controller.det c) <> Scanning -> holdStartTime (Controller.det c) <> None) ->
  detectionPhase (Controller.det (Controller.handle e c)) <> Scanning ->
  holdStartTime (Controller.det (Controller.handle e c)) <> None.
Proof.
  intros Hinv.
  assert (Hstart : forall c', Controller.det (Controller.takeAndCropPhoto_start c') = Controller.det c'
            \/ (detectionPhase (Controller.det (Controller.takeAndCropPhoto_start c'))
                = detectionPhase (Controller.det c') /\
                holdStartTime (Controller.det (Controller.takeAndCropPhoto_start c'))
                = holdStartTime (Controller.det c'))).
  { intros c'. unfold Controller.takeAndCropPhoto_start.
    destruct (_ || _); [left; reflexivity|right; split; reflexivity]. }
  destruct e as [m t| | |ok|]; cbn [Controller.handle].
  - exact (run_phase_has_hold [(m, t)] (Controller.det c) Hinv).
  - destruct (_ && _ && _); [|exact Hinv].
    destruct (Hstart c) as [->|[-> ->]]; exact Hinv.
  - destruct (Hstart c) as [->|[-> ->]]; exact Hinv.
  - unfold Controller.takeAndCropPhoto_finish. destruct (isCapturing (Controller.det c));
      [|exact Hinv].
    cbn. intros Hs. exfalso. apply Hs. reflexivity.
  - cbn. intros Hs. exfalso. apply Hs. reflexivity.
Qed.

Lemma run_events_phase_has_hold (es : list Controller.Event) :
  forall c,
  (detectionPhase (Controller.det c) <> Scanning -> holdStartTime (Controller.det c) <> None) ->
  detectionPhase (Controller.det (Controller.run_events es c)) <> Scanning ->
  holdStartTime (Controller.det (Controller.run_events es c)) <> None.
Proof.
  induction es as [|e es IH]; intros c Hinv; cbn; [exact Hinv|].
  apply IH. apply handle_phase_has_hold. exact Hinv.
Qed.

Lemma ready_step_cases (s : DState) (m : bool) (now : Z) :
  detectionPhase s = Ready -> holdStartTime s <> None ->
  let last := match lastDetectionTime s with Some l => l | None => 0%Z end in
  (m = true -> detectionPhase (step m now s) = Ready) /\
  (isCapturing s = true -> step m now s = s) /\
  (m = false -> isCapturing s = false -> (now - last < DETECTION_GRACE_MS)%Z ->
     step m now s = s) /\
  (m = false -> isCapturing s = false -> (DETECTION_GRACE_MS <= now - last)%Z ->
     step m now s = mkDState Scanning None None false).
Proof.
  destruct s as [p hs lt cap]; cbn [detectionPhase holdStartTime lastDetectionTime isCapturing].
  intros -> Hh. destruct hs as [h|]; [|congruence].
  unfold step, onDetectionSuccess, onDetectionMissed;
    cbn [detectionPhase holdStartTime lastDetectionTime isCapturing].
  split; [|split; [|split]].
  - intros ->. destruct cap; [reflexivity|].
    destruct (HOLD_DURATION_MS <=? now - h)%Z; reflexivity.
  - intros ->. destruct m; reflexivity.
  - intros -> -> Hlt.
    destruct (Z.leb_spec DETECTION_GRACE_MS
                (now - match lt with Some l => l | None => 0 end)); [lia|reflexivity].
  - intros -> -> Hge.
    destruct (Z.leb_spec DETECTION_GRACE_MS
                (now - match lt with Some l => l | None => 0 end)); [reflexivity|lia].
Qed.

(** C3 (amended): in a [Ready] state the component reaches from its mount
    (frame results, the auto-capture effect, the capture button, the end
    of a capture, retake), a matched step keeps [Ready]; any step while a
    capture is in flight leaves the state unchanged; a missed step less
    than [DETECTION_GRACE_MS] after the last match leaves the state
    unchanged; a missed step at least [DETECTION_GRACE_MS] after the last
    match, with no capture in flight, goes to [Scanning] with both timers
    cleared. The reset of [takeAndCropPhoto]'s [finally] always yields
    [Scanning] with the timers cleared and no capture flag. *)
Theorem C3_ready_exit_conditions (es : list Controller.Event) (mounted m : bool) (now : Z)
  (Hready : detectionPhase (Controller.det
              (Controller.run_events es (Controller.mkCState initial false mounted 0))) = Ready) :
  let s := Controller.det (Controller.run_events es (Controller.mkCState initial false mounted 0)) in
  let last := match lastDetectionTime s with Some l => l | None => 0%Z end in
  (m = true -> detectionPhase (step m now s) = Ready) /\
  (isCapturing s = true -> step m now s = s) /\
  (m = false -> isCapturing s = false -> (now - last < DETECTION_GRACE_MS)%Z ->
     step m now s = s) /\
  (m = false -> isCapturing s = false -> (DETECTION_GRACE_MS <= now - last)%Z ->
     step m now s = mkDState Scanning None None false) /\
  (forall s', reset s' = mkDState Scanning None None false).
Proof.
  assert (Hhold : holdStartTime (Controller.det
            (Controller.run_events es (Controller.mkCState initial false mounted 0))) <> None).
  { apply run_events_phase_has_hold.
    - cbn. intros Hs. exfalso. apply Hs. reflexivity.
    - rewrite Hready. discriminate. }
  destruct (ready_step_cases _ m now Hready Hhold) as [A [B [C D]]].
  split; [exact A|split; [exact B|split; [exact C|split; [exact D|reflexivity]]]].
Qed.

Lemma C3_ready_exit_conditions_witness :
  let c0 := Controller.mkCState initial false true 0 in
  let es := [Controller.Frame true 0; Controller.Frame true 1000; Controller.AutoEffect] in
  detectionPhase (Controller.det (Controller.run_events es c0)) = Ready /\
  isCapturing (Controller.det (Controller.run_events es c0)) = true /\
  step false 2000 (Controller.det (Controller.run_events es c0))
  = Controller.det (Controller.run_events es c0).
Proof.
  intros c0 es.
  assert (R : detectionPhase (Controller.det (Controller.run_events es c0)) = Ready)
    by reflexivity.
  assert (K : isCapturing (Controller.det (Controller.run_events es c0)) = true)
    by reflexivity.
  split; [exact R|split; [exact K|]].
  destruct (C3_ready_exit_conditions es true false 2000 R) as [_ [B _]].
  exact (B K).
Defined.

(** C9 (counterexample): [onDetectionSuccess] does not clamp: with a hold
    started at 1000, a call at 500 compares [now - holdStartTime = -500]
    with the hold duration. *)
Lemma C9_elapsed_not_clamped :
  let s := run [(true, 1000%Z)] initial in
  success_elapsed 500 s = Some (-500)%Z.
Proof. reflexivity. Qed.

(** C9 (amended): a timestamp earlier than the hold start (for a matched
    step) or than the last match (for a missed step) gives a negative
    difference, which the positive thresholds treat like zero: a matched
    step yields the phase and hold start of the same step at the hold start
    (zero elapsed), and a missed step yields the state of the same step at
    the last match time (zero elapsed). *)
Theorem C9_backwards_time_acts_as_zero (s : DState) (now hs l : Z)
  (Hhs : holdStartTime s = Some hs) (Hl : lastDetectionTime s = Some l) :
  ((now < hs)%Z ->
     detectionPhase (onDetectionSuccess now s) = detectionPhase (onDetectionSuccess hs s) /\
     holdStartTime (onDetectionSuccess now s) = holdStartTime (onDetectionSuccess hs s)) /\
  ((now < l)%Z -> onDetectionMissed now s = onDetectionMissed l s).
Proof.
  unfold onDetectionSuccess, onDetectionMissed. rewrite Hhs, Hl.
  destruct (isCapturing s); [split; intros; auto|].
  unfold HOLD_DURATION_MS, DETECTION_GRACE_MS. split; intros Hlt.
  - rewrite Z.sub_diag. cbn.
    destruct (Z.leb_spec 1000 (now - hs)); [lia|]. auto.
  - rewrite Z.sub_diag. cbn.
    destruct (Z.leb_spec 300 (now - l)); [lia|]. reflexivity.
Qed.

Lemma C9_backwards_time_acts_as_zero_witness :
  detectionPhase (onDetectionSuccess 500 (run [(true, 1000%Z)] initial)) = Holding.
Proof.
  destruct (C9_backwards_time_acts_as_zero (run [(true, 1000%Z)] initial) 500 1000 1000
              eq_refl eq_refl) as [Hs _].
  destruct (Hs ltac:(lia)) as [Hp _]. rewrite Hp. reflexivity.
Defined.

End DebounceFacts.

(** ** Auto-capture controller *)

Module ControllerFacts.

Import Debounce Controller.

Lemma handle_while_capturing (e : Event) (c : CState) :
  is_finish e = false -> isCapturing (det c) = true ->
  isCapturing (det (handle e c)) = true /\ captures (handle e c) = captures c.
Proof.
  intros Hf Hc. destruct e; cbn in Hf |- *; try discriminate.
  - rewrite DebounceFacts.step_isCapturing. auto.
  - rewrite Hc, !andb_false_r. auto.
  - unfold takeAndCropPhoto_start. rewrite Hc, orb_true_r. auto.
  - auto.
Qed.

Lemma handle_idle (e : Event) (c : CState) :
  is_finish e = false -> isCapturing (det c) = false ->
  (isCapturing (det (handle e c)) = false /\ captures (handle e c) = captures c) \/
  (isCapturing (det (handle e c)) = true /\ captures (handle e c) = S (captures c)).
Proof.
  intros Hf Hc.
  assert (Hstart : forall c', isCapturing (det c') = false ->
    (isCapturing (det (takeAndCropPhoto_start c')) = false /\
     captures (takeAndCropPhoto_start c') = captures c') \/
    (isCapturing (det (takeAndCropPhoto_start c')) = true /\
     captures (takeAndCropPhoto_start c') = S (captures c'))).
  { intros c' Hc'. unfold takeAndCropPhoto_start. rewrite Hc', orb_false_r.
    destruct (cameraMounted c'); cbn; auto. }
  destruct e; cbn in Hf |- *; try discriminate.
  - rewrite DebounceFacts.step_isCapturing. auto.
  - destruct (is_ready (detectionPhase (det c)) && negb (croppedImage c)
              && negb (isCapturing (det c))); auto.
  - auto.
  - auto.
Qed.

Lemma run_without_finish (es : list Event) :
  forall c, forallb (fun e => negb (is_finish e)) es = true ->
  (isCapturing (det c) = true ->
     isCapturing (det (run_events es c)) = true /\
     captures (run_events es c) = captures c) /\
  (captures (run_events es c) <= S (captures c))%nat.
Proof.
  induction es as [|e es IH]; intros c Hall; cbn in Hall |- *; [split; auto|].
  apply andb_prop in Hall as [He Hall]. apply negb_true_iff in He.
  destruct (isCapturing (det c)) eqn:Hc.
  - destruct (handle_while_capturing e c He Hc) as [Hc' Hn].
    destruct (IH (handle e c) Hall) as [Hkeep _].
    destruct (Hkeep Hc') as [H1 H2]. rewrite H2, Hn. split; auto.
  - split; [discriminate|].
    destruct (handle_idle e c He Hc) as [[Hc' Hn]|[Hc' Hn]].
    + destruct (IH (handle e c) Hall) as [_ Hle]. lia.
    + destruct (IH (handle e c) Hall) as [Hkeep _].
      destruct (Hkeep Hc') as [_ H2]. lia.
Qed.

(** C6: between two completions of a capture at most one capture starts:
    a run of events without a completion adds at most one call of
    [takePhoto], and none when a capture is already in flight (further
    [Ready] effects, button presses and frames are then no-ops on the
    capture flag, frames leave the controller unchanged). When the capture
    completes, successfully or not, the flag is cleared and the debounce
    state is reset to [Scanning] with both timers cleared, in the same
    step, before any later frame is handled. *)
Theorem C6_capture_at_most_once (c : CState) (es : list Event) (ok m : bool) (t : Z)
  (Hnofinish : forallb (fun e => negb (is_finish e)) es = true) :
  (captures (run_events es c) <= S (captures c))%nat /\
  (isCapturing (det c) = true ->
     captures (run_events es c) = captures c /\
     isCapturing (det (run_events es c)) = true) /\
  (isCapturing (det c) = true -> handle (Frame m t) c = c) /\
  (isCapturing (det c) = true ->
     det (handle (Finish ok) c) = mkDState Scanning None None false).
Proof.
  destruct (run_without_finish es c Hnofinish) as [Hkeep Hle].
  split; [exact Hle|]. split; [|split].
  - intros Hc. destruct (Hkeep Hc). auto.
  - intros Hc. destruct c as [d ci cm n]; cbn in Hc |- *.
    rewrite (DebounceFacts.step_while_capturing m t d Hc). reflexivity.
  - intros Hc. cbn. unfold takeAndCropPhoto_finish. rewrite Hc. reflexivity.
Qed.

Lemma C6_capture_at_most_once_witness :
  let c0 := mkCState initial false true 0 in
  let es := [Frame true 0; Frame true 1000; AutoEffect; AutoEffect; Press;
             Frame false 5000; AutoEffect] in
  forallb (fun e => negb (is_finish e)) es = true /\
  captures (run_events es c0) = 1%nat /\
  (captures (run_events es c0) <= S (captures c0))%nat.
Proof.
  intros c0 es. split; [reflexivity|]. split; [reflexivity|].
  apply (C6_capture_at_most_once c0 es true true 0). reflexivity.
Defined.

End ControllerFacts.

(** ** Effective dimensions and rotation *)

Module RotationFacts.

Import Rotation.

(** C7 (counterexample): on Android the swap ignores the orientation: a
    4000x3000 photo on a 400x800 preview gets 3000x4000 both at rotation 90
    (landscape-left) and at rotation 0 (portrait), so rotation 90 does not
    swap relative to rotation 0. *)
Lemma C7_android_swap_ignores_rotation :
  rotationByOrientation LandscapeLeft = 90%Z /\ rotationByOrientation Portrait = 0%Z /\
  effective_dims Android LandscapeLeft 4000 3000 (Overlay.mkLayout 400 800) = (3000%Z, 4000%Z) /\
  effective_dims Android Portrait 4000 3000 (Overlay.mkLayout 400 800) = (3000%Z, 4000%Z).
Proof. repeat split; reflexivity. Qed.

(** C7 (amended): on iOS the effective dimensions are the raw ones swapped
    exactly when the orientation's rotation is 90 or 270; on Android they do
    not depend on the orientation: they are swapped exactly when the raw
    photo is landscape ([height < width]) and the preview is portrait
    ([width < height]). *)
Theorem C7_effective_dims_by_platform (o : Orientation) (w h : Z) (L : Overlay.Layout) :
  effective_dims IOS o w h L =
    (if (rotationByOrientation o =? 90)%Z || (rotationByOrientation o =? 270)%Z
     then (h, w) else (w, h)) /\
  (forall o', effective_dims Android o w h L = effective_dims Android o' w h L) /\
  effective_dims Android o w h L =
    (if (h <? w)%Z && negb (Qle_bool (Overlay.layout_height L) (Overlay.layout_width L))
     then (h, w) else (w, h)).
Proof.
  split; [|split]; [destruct o; reflexivity | intros o'; reflexivity | reflexivity].
Qed.

End RotationFacts.

(** ** The [rect] memo *)

Module RectFacts.

Import Overlay.

Local Open Scope Q_scope.

Lemma clamp01 (q : Q) : 0 <= Qmax 0 (Qmin q 1) /\ Qmax 0 (Qmin q 1) <= 1.
Proof.
  split.
  - apply Q.le_max_l.
  - apply Q.max_lub; [discriminate|apply Q.le_min_r].
Qed.

Lemma order01 (a b : Q) : 0 <= a <= 1 -> 0 <= b <= 1 ->
  0 <= Qmin a b /\ Qmin a b <= Qmax a b /\ Qmax a b <= 1.
Proof.
  intros [Ha0 Ha1] [Hb0 Hb1]. split; [|split].
  - apply Q.min_glb; assumption.
  - apply Qle_trans with a; [apply Q.le_min_l|apply Q.le_max_l].
  - apply Q.max_lub; assumption.
Qed.

Lemma normalize_rect_bounds (r : RectPercentage) :
  let n := normalize_rect r in
  0 <= x1 n /\ x1 n <= x2 n /\ x2 n <= 1 /\
  0 <= y1 n /\ y1 n <= y2 n /\ y2 n <= 1.
Proof.
  cbn.
  destruct (order01 _ _ (clamp01 (x1 r)) (clamp01 (x2 r))) as [? [? ?]].
  destruct (order01 _ _ (clamp01 (y1 r)) (clamp01 (y2 r))) as [? [? ?]].
  repeat split; assumption.
Qed.

(** C10: for every input rectangle, also with components outside [0,1] or
    with reversed corners, the rectangle used by [CameraOverlayCrop]
    satisfies [0 <= x1 <= x2 <= 1] and [0 <= y1 <= y2 <= 1]; the
    normalisation is total, so no input is rejected. *)
Theorem C10_rect_normalized (r : RectPercentage) :
  exists n, normalize_rect r = n /\
  0 <= x1 n /\ x1 n <= x2 n /\ x2 n <= 1 /\
  0 <= y1 n /\ y1 n <= y2 n /\ y2 n <= 1.
Proof. exists (normalize_rect r). split; [reflexivity|apply normalize_rect_bounds]. Qed.

End RectFacts.

(** ** Crop geometry of [grabImage] *)

Module GeometryFacts.

Import Overlay.

Local Open Scope Q_scope.

Lemma round_compat (x y : Q) : x == y -> JS.round x = JS.round y.
Proof. intros H. unfold JS.round. apply Qfloor_comp. rewrite H. reflexivity. Qed.

Lemma round_nonneg (x : Q) : 0 <= x -> (0 <= JS.round x)%Z.
Proof.
  intros H. unfold JS.round.
  change 0%Z with (Qfloor (1 # 2)). apply Qfloor_resp_le.
  rewrite <- (Qplus_0_l (1 # 2)) at 1. apply Qplus_le_compat; [exact H|apply Qle_refl].
Qed.

Lemma inject_Z_pos (z : Z) : (0 < z)%Z -> 0 < inject_Z z.
Proof. intros H. unfold Qlt; cbn. lia. Qed.

Lemma or_num_pos (a b : Q) : 0 <= a -> 0 < b -> 0 < JS.or_num a b.
Proof.
  intros Ha Hb. unfold JS.or_num. destruct (Qeq_bool a 0) eqn:E; [exact Hb|].
  apply Qeq_bool_neq in E. apply Qle_lteq in Ha as [Ha|Ha]; [exact Ha|].
  exfalso. apply E. symmetry. exact Ha.
Qed.

Lemma div_pos (a b : Q) : 0 < a -> 0 < b -> 0 < a / b.
Proof. intros Ha Hb. apply Qmult_lt_0_compat; [exact Ha|apply Qinv_lt_0_compat; exact Hb]. Qed.

Lemma inv_max (a b : Q) : 0 < a -> 0 < b -> / Qmax a b == Qmin (/ a) (/ b).
Proof.
  intros Ha Hb. destruct (Q.max_spec a b) as [[Hlt Heq]|[Hle Heq]]; rewrite Heq.
  - rewrite Q.min_r; [reflexivity|].
    apply Qlt_le_weak. apply (proj1 (Qinv_lt_contravar a b Ha Hb)); assumption.
  - apply Qle_lteq in Hle as [Hlt|Heq'].
    + rewrite Q.min_l; [reflexivity|].
      apply Qlt_le_weak. apply (proj1 (Qinv_lt_contravar b a Hb Ha)); assumption.
    + rewrite Heq'. rewrite Q.min_id. reflexivity.
Qed.

Lemma inv_min (a b : Q) : 0 < a -> 0 < b -> / Qmin a b == Qmax (/ a) (/ b).
Proof.
  intros Ha Hb. destruct (Q.min_spec a b) as [[Hlt Heq]|[Hle Heq]]; rewrite Heq.
  - rewrite Q.max_l; [reflexivity|].
    apply Qlt_le_weak. apply (proj1 (Qinv_lt_contravar a b Ha Hb)); assumption.
  - apply Qle_lteq in Hle as [Hlt|Heq'].
    + rewrite Q.max_r; [reflexivity|].
      apply Qlt_le_weak. apply (proj1 (Qinv_lt_contravar b a Hb Ha)); assumption.
    + rewrite Heq'. rewrite Q.max_id. reflexivity.
Qed.

Section Photo.

Variables (mode : ResizeMode) (L : Layout) (rp : RectPercentage) (W H : Z).
Hypotheses (HW : (1 <= W)%Z) (HH : (1 <= H)%Z)
           (Hlw : 0 <= layout_width L) (Hlh : 0 <= layout_height L).

Let g := grabImage_geometry mode L rp (mkPhoto W H).
Let r := normalize_rect rp.

Lemma geometry_fields :
  previewW g = JS.or_num (layout_width L) (inject_Z W) /\
  previewH g = JS.or_num (layout_height L) (inject_Z H) /\
  scale g = match mode with
            | Cover => Qmax (previewW g / inject_Z W) (previewH g / inject_Z H)
            | Contain => Qmin (previewW g / inject_Z W) (previewH g / inject_Z H)
            end /\
  offsetX g = (previewW g - inject_Z W * scale g) / 2 /\
  offsetY g = (previewH g - inject_Z H * scale g) / 2 /\
  rawX g = (x1 r * previewW g - offsetX g) / scale g /\
  rawY g = (y1 r * previewH g - offsetY g) / scale g /\
  rawW g = ((x2 r - x1 r) * previewW g) / scale g /\
  rawH g = ((y2 r - y1 r) * previewH g) / scale g.
Proof. repeat split. Qed.

Lemma preview_pos : 0 < previewW g /\ 0 < previewH g.
Proof.
  destruct geometry_fields as [-> [-> _]].
  split; apply or_num_pos; auto; apply inject_Z_pos; lia.
Qed.

Lemma scale_pos : 0 < scale g.
Proof.
  destruct preview_pos as [Hpw Hph].
  assert (Ha : 0 < previewW g / inject_Z W) by (apply div_pos; [|apply inject_Z_pos]; auto; lia).
  assert (Hb : 0 < previewH g / inject_Z H) by (apply div_pos; [|apply inject_Z_pos]; auto; lia).
  destruct geometry_fields as [_ [_ [-> _]]]. destruct mode.
  - apply Qlt_le_trans with (1 := Ha). apply Q.le_max_l.
  - apply Q.min_glb_lt; assumption.
Qed.

Lemma raw_extent_nonneg : 0 <= rawW g /\ 0 <= rawH g.
Proof.
  destruct (RectFacts.normalize_rect_bounds rp) as [_ [Hx [_ [_ [Hy _]]]]].
  fold r in Hx, Hy.
  destruct preview_pos as [Hpw Hph]. pose proof scale_pos as Hs.
  destruct geometry_fields as [_ [_ [_ [_ [_ [_ [_ [-> ->]]]]]]]].
  split; apply Qmult_le_0_compat;
    try (apply Qinv_le_0_compat; apply Qlt_le_weak; exact Hs);
    apply Qmult_le_0_compat; try (apply Qlt_le_weak; assumption);
    [apply (Qle_minus_iff (x1 r) (x2 r))|apply (Qle_minus_iff (y1 r) (y2 r))]; assumption.
Qed.

End Photo.

Ltac q_neq0 :=
  match goal with
  | H : 0 < ?x |- ~ ?x == 0 => apply Qnot_eq_sym, Qlt_not_eq; exact H
  end.

(** C1 (counterexample): a rectangle of positive width 1/256 of a 100 px
    viewport maps to 0.39 sensor pixels, which [Math.round] turns into a
    crop of width and height 0: nothing enforces an extent of at least 1. *)
Lemma C1_thin_rect_gives_empty_crop :
  let c := grabImage_crop Cover (mkLayout 100 100) (mkRect (1 # 2) (1 # 2) (129 # 256) (129 # 256))
             (mkPhoto 100 100) in
  (1 # 2) < (129 # 256) /\ width c = 0%Z /\ height c = 0%Z.
Proof. split; [reflexivity|]. vm_compute. split; reflexivity. Qed.

Lemma round_zero_iff (x : Q) : 0 <= x -> (JS.round x = 0%Z <-> x < 1 # 2).
Proof.
  intros Hx. pose proof (round_nonneg x Hx) as R0. unfold JS.round in *. split.
  - intros E. pose proof (Qlt_floor (x + (1 # 2))) as L. rewrite E in L.
    change (inject_Z (0 + 1)) with 1 in L. lra.
  - intros Hlt. pose proof (Qfloor_le (x + (1 # 2))) as L.
    assert (L' : inject_Z (Qfloor (x + (1 # 2))) < inject_Z 1)
      by (change (inject_Z 1) with 1; lra).
    rewrite <- Zlt_Qlt in L'. lia.
Qed.

(** C1 (amended): for a photo of positive size and a measured or unmeasured
    preview, the crop of [grabImage] has its origin in [0, dim - 1], a
    non-negative extent and [origin + extent <= dim] on both axes; no
    minimum extent of 1 is enforced: the width is 0 exactly when the
    rectangle's width maps to less than half a sensor pixel
    ([rawW < 1/2]), and likewise the height. *)
Theorem C1_grabImage_crop_bounds (mode : ResizeMode) (L : Layout) (rp : RectPercentage)
  (W H : Z) (HW : (1 <= W)%Z) (HH : (1 <= H)%Z)
  (Hlw : 0 <= layout_width L) (Hlh : 0 <= layout_height L) :
  let g := grabImage_geometry mode L rp (mkPhoto W H) in
  let c := grabImage_crop mode L rp (mkPhoto W H) in
  (0 <= originX c <= W - 1)%Z /\ (0 <= width c)%Z /\ (originX c + width c <= W)%Z /\
  (0 <= originY c <= H - 1)%Z /\ (0 <= height c)%Z /\ (originY c + height c <= H)%Z /\
  (width c = 0%Z <-> rawW g < 1 # 2) /\ (height c = 0%Z <-> rawH g < 1 # 2).
Proof.
  destruct (raw_extent_nonneg mode L rp W H HW HH Hlw Hlh) as [HrW HrH].
  pose proof (round_zero_iff _ HrW) as ZW. pose proof (round_zero_iff _ HrH) as ZH.
  apply round_nonneg in HrW. apply round_nonneg in HrH.
  unfold grabImage_crop. cbv zeta.
  cbn [originX originY width height photo_width photo_height].
  set (g := grabImage_geometry mode L rp (mkPhoto W H)) in *.
  rewrite <- ZW, <- ZH.
  repeat split; lia.
Qed.

Lemma C1_grabImage_crop_bounds_witness :
  width (grabImage_crop Cover (mkLayout 100 100) (mkRect (1 # 2) (1 # 2) (129 # 256) (129 # 256))
           (mkPhoto 100 100)) = 0%Z.
Proof.
  destruct (C1_grabImage_crop_bounds Cover (mkLayout 100 100)
              (mkRect (1 # 2) (1 # 2) (129 # 256) (129 # 256)) 100 100
              ltac:(lia) ltac:(lia) ltac:(discriminate) ltac:(discriminate))
    as [_ [_ [_ [_ [_ [_ [[_ Z0] _]]]]]]].
  apply Z0. vm_compute. reflexivity.
Defined.

(** C2 (counterexample): with fit Cover, a 200x100 photo and a 100x100
    preview, the full-width rectangle (100 viewport pixels) maps to 100
    sensor pixels: the sensor-per-viewport factor is 1 = min(200/100,
    100/100), not the spec's max(sw/vw, sh/vh) = 2. *)
Lemma C2_cover_factor_is_not_max :
  let g := grabImage_geometry Cover (mkLayout 100 100) (mkRect 0 0 1 1) (mkPhoto 200 100) in
  rawW g == 100 /\
  ~ rawW g == (1 - 0) * previewW g * SpecWords.spec_scale Cover 200 100 (previewW g) (previewH g).
Proof.
  split; [reflexivity|]. intros Heq. vm_compute in Heq. discriminate.
Qed.

(** C2 (amended): [grabImage] divides by the viewport-per-sensor scale; its
    reciprocal, the sensor-per-viewport factor [k], is
    [min(sw/vw, sh/vh)] for Cover and [max(sw/vw, sh/vh)] for Contain, and
    every coordinate maps affinely as [sx = -offsetX * k + x * k] (the
    extents as [w * k]). *)
Theorem C2_grabImage_sensor_factor (mode : ResizeMode) (L : Layout) (rp : RectPercentage)
  (W H : Z) (HW : (1 <= W)%Z) (HH : (1 <= H)%Z)
  (Hlw : 0 <= layout_width L) (Hlh : 0 <= layout_height L) :
  let g := grabImage_geometry mode L rp (mkPhoto W H) in
  let r := normalize_rect rp in
  let k := match mode with
           | Cover => Qmin (inject_Z W / previewW g) (inject_Z H / previewH g)
           | Contain => Qmax (inject_Z W / previewW g) (inject_Z H / previewH g)
           end in
  / scale g == k /\
  rawX g == - offsetX g * k + x1 r * previewW g * k /\
  rawY g == - offsetY g * k + y1 r * previewH g * k /\
  rawW g == (x2 r - x1 r) * previewW g * k /\
  rawH g == (y2 r - y1 r) * previewH g * k.
Proof.
  intros g r k.
  destruct (preview_pos mode L rp W H HW HH Hlw Hlh) as [Hpw Hph].
  destruct (geometry_fields mode L rp W H) as [_ [_ [Hs [_ [_ [HrX [HrY [HrW HrH]]]]]]]].
  change (grabImage_geometry mode L rp (mkPhoto W H)) with g in Hpw, Hph, Hs, HrX, HrY, HrW, HrH.
  change (normalize_rect rp) with r in HrX, HrY, HrW, HrH.
  assert (HW' : 0 < inject_Z W) by (apply inject_Z_pos; lia).
  assert (HH' : 0 < inject_Z H) by (apply inject_Z_pos; lia).
  assert (Ha : 0 < previewW g / inject_Z W) by (apply div_pos; assumption).
  assert (Hb : 0 < previewH g / inject_Z H) by (apply div_pos; assumption).
  assert (Hk : / scale g == k).
  { unfold k. rewrite Hs. destruct mode.
    - rewrite (inv_max _ _ Ha Hb). apply Q.min_compat; field; split; q_neq0.
    - rewrite (inv_min _ _ Ha Hb). apply Q.max_compat; field; split; q_neq0. }
  split; [exact Hk|].
  rewrite HrX, HrY, HrW, HrH. unfold Qdiv. rewrite Hk.
  repeat split; ring.
Qed.

Lemma C2_grabImage_sensor_factor_witness :
  / scale (grabImage_geometry Cover (mkLayout 100 100) (mkRect 0 0 1 1) (mkPhoto 200 100))
  == Qmin (200 / 100) (100 / 100).
Proof.
  apply (C2_grabImage_sensor_factor Cover (mkLayout 100 100) (mkRect 0 0 1 1) 200 100);
    [lia | lia | discriminate | discriminate].
Defined.

(** C5 (counterexample): with the preview still unmeasured and the default
    rectangle, [grabImage] crops the rectangle's share of a 100x100 photo,
    [{10, 30, 80, 40}], not the full frame. *)
Lemma C5_unmeasured_not_full_frame :
  grabImage_crop Cover unmeasured DEFAULT_RECT (mkPhoto 100 100) = mkCrop 10 30 80 40 /\
  grabImage_crop Cover unmeasured DEFAULT_RECT (mkPhoto 100 100) <> mkCrop 0 0 100 100.
Proof. split; [vm_compute; reflexivity | vm_compute; discriminate]. Qed.

(** C5 (amended): while the preview is unmeasured ([cameraLayout] still
    [{0, 0}]), [grabImage] does not fail: it uses the photo's own size as
    the preview size, so the scale is 1, the offsets are 0, and the crop is
    the normalised rectangle's share of the photo, clamped as usual. *)
Theorem C5_unmeasured_uses_photo_size (mode : ResizeMode) (rp : RectPercentage)
  (W H : Z) (HW : (1 <= W)%Z) (HH : (1 <= H)%Z) :
  let r := normalize_rect rp in
  let ox := Z.max 0 (Z.min (JS.round (x1 r * inject_Z W)) (W - 1)) in
  let oy := Z.max 0 (Z.min (JS.round (y1 r * inject_Z H)) (H - 1)) in
  grabImage_crop mode unmeasured rp (mkPhoto W H) =
  mkCrop ox oy (Z.min (JS.round ((x2 r - x1 r) * inject_Z W)) (W - ox))
               (Z.min (JS.round ((y2 r - y1 r) * inject_Z H)) (H - oy)).
Proof.
  intros r ox oy.
  set (g := grabImage_geometry mode unmeasured rp (mkPhoto W H)).
  destruct (geometry_fields mode unmeasured rp W H)
    as [Hpw [Hph [Hs [HoX [HoY [HrX [HrY [HrW HrH]]]]]]]].
  change (grabImage_geometry mode unmeasured rp (mkPhoto W H))
    with g in Hpw, Hph, Hs, HoX, HoY, HrX, HrY, HrW, HrH.
  change (normalize_rect rp) with r in HrX, HrY, HrW, HrH.
  assert (HW' : 0 < inject_Z W) by (apply inject_Z_pos; lia).
  assert (HH' : 0 < inject_Z H) by (apply inject_Z_pos; lia).
  change (JS.or_num (layout_width unmeasured) (inject_Z W)) with (inject_Z W) in Hpw.
  change (JS.or_num (layout_height unmeasured) (inject_Z H)) with (inject_Z H) in Hph.
  assert (Hs1 : scale g == 1).
  { rewrite Hs, Hpw, Hph.
    assert (E1 : inject_Z W / inject_Z W == 1) by (field; q_neq0).
    assert (E2 : inject_Z H / inject_Z H == 1) by (field; q_neq0).
    destruct mode.
    - transitivity (Qmax 1 1); [apply Q.max_compat; assumption|apply Q.max_id].
    - transitivity (Qmin 1 1); [apply Q.min_compat; assumption|apply Q.min_id]. }
  assert (EX : rawX g == x1 r * inject_Z W)
    by (rewrite HrX, HoX, Hpw, Hs1; field).
  assert (EY : rawY g == y1 r * inject_Z H)
    by (rewrite HrY, HoY, Hph, Hs1; field).
  assert (EW : rawW g == (x2 r - x1 r) * inject_Z W)
    by (rewrite HrW, Hpw, Hs1; field).
  assert (EH : rawH g == (y2 r - y1 r) * inject_Z H)
    by (rewrite HrH, Hph, Hs1; field).
  unfold grabImage_crop. cbv zeta.
  cbn [photo_width photo_height].
  change (grabImage_geometry mode unmeasured rp (mkPhoto W H)) with g.
  rewrite (round_compat _ _ EX), (round_compat _ _ EY),
          (round_compat _ _ EW), (round_compat _ _ EH).
  reflexivity.
Qed.

Lemma C5_unmeasured_uses_photo_size_witness :
  grabImage_crop Contain unmeasured DEFAULT_RECT (mkPhoto 100 100) = mkCrop 10 30 80 40.
Proof.
  rewrite (C5_unmeasured_uses_photo_size Contain DEFAULT_RECT 100 100 ltac:(lia) ltac:(lia)).
  vm_compute. reflexivity.
Defined.

(** [calculateCropRegion] (part_001) bounds the width by
    [photoWidth - cropX] with the unrounded [cropX] while the origin is
    rounded: at [cropX = 1/2] the origin is 1, the width 99.5, and
    [originX + width = 100.5] exceeds the 100 px photo. *)
Lemma calculateCropRegion_overshoots :
  let a := IDScanner.calculateCropRegion 100 100 100 100 (1 # 2) 0 100 100 in
  IDScanner.a_originX a == 1 /\ IDScanner.a_width a == (199 # 2) /\
  100 < IDScanner.a_originX a + IDScanner.a_width a.
Proof. vm_compute. repeat split; reflexivity. Qed.

(** C8: sensor 1600x1200 at rotation 0, viewport 400x300, the full-viewport
    rectangle and fit Contain give exactly [{0, 0, 1600, 1200}]. *)
Theorem C8_contain_full_viewport :
  grabImage_crop Contain (mkLayout 400 300) (mkRect 0 0 1 1) (mkPhoto 1600 1200)
  = mkCrop 0 0 1600 1200.
Proof. vm_compute. reflexivity. Qed.

End GeometryFacts.

(** ** MRZ detection *)

Module MRZFacts.

Import Strings.String Strings.Ascii MRZ.

Local Open Scope string_scope.

Lemma append_empty_r (a : string) : a ++ EmptyString = a.
Proof. induction a as [|c a IH]; cbn; [reflexivity|]. rewrite IH. reflexivity. Qed.

Lemma split_lines_cons (s : string) : exists w ws, split_lines s = w :: ws.
Proof.
  induction s as [|c s [w [ws IH]]]; cbn; [eauto|].
  destruct (is_newline c); [eauto|]. rewrite IH. eauto.
Qed.

Lemma split_lines_no_newline (a : string) :
  forallb (fun c => negb (is_newline c)) (list_ascii_of_string a) = true ->
  forall s w ws, split_lines s = w :: ws -> split_lines (a ++ s) = (a ++ w) :: ws.
Proof.
  induction a as [|c a IH]; intros Ha s w ws Hs; cbn in Ha |- *; [exact Hs|].
  apply andb_prop in Ha as [Hc Ha]. apply negb_true_iff in Hc. rewrite Hc.
  rewrite (IH Ha s w ws Hs). reflexivity.
Qed.

Lemma split_lines_single (a : string) :
  forallb (fun c => negb (is_newline c)) (list_ascii_of_string a) = true ->
  split_lines a = [a].
Proof.
  intros Ha. rewrite <- (append_empty_r a) at 1.
  rewrite (split_lines_no_newline a Ha EmptyString EmptyString [] eq_refl).
  rewrite append_empty_r. reflexivity.
Qed.

Lemma split_lines_concat (l : string) (ls : list string) :
  Forall (fun a => forallb (fun c => negb (is_newline c)) (list_ascii_of_string a) = true)
         (l :: ls) ->
  split_lines (String.concat newline (l :: ls)) = l :: ls.
Proof.
  revert l. induction ls as [|l' ls IH]; intros l Hall; inversion Hall as [|? ? Hl Hrest]; subst.
  - apply split_lines_single. exact Hl.
  - change (String.concat newline (l :: l' :: ls))
      with (l ++ newline ++ String.concat newline (l' :: ls)).
    rewrite (split_lines_no_newline l Hl _ EmptyString (l' :: ls)).
    + rewrite append_empty_r. reflexivity.
    + change (split_lines (newline ++ String.concat newline (l' :: ls)))
        with (EmptyString :: split_lines (String.concat newline (l' :: ls))).
      rewrite (IH l' Hrest). reflexivity.
Qed.

Lemma drop_spaces_id (l : list ascii) :
  forallb (fun c => negb (is_space c)) l = true -> drop_spaces l = l.
Proof.
  destruct l as [|c l]; cbn; [reflexivity|].
  intros H. apply andb_prop in H as [Hc _]. apply negb_true_iff in Hc. rewrite Hc. reflexivity.
Qed.

Lemma mrz_char_facts (c : ascii) :
  is_mrz_char c = true -> is_space c = false /\ is_lower c = false /\ is_newline c = false.
Proof.
  unfold is_mrz_char, is_upper, is_digit, is_space, is_lower, is_newline.
  intros H. repeat rewrite Bool.orb_true_iff in H. repeat rewrite Bool.andb_true_iff in H.
  repeat rewrite Nat.leb_le in H. rewrite Nat.eqb_eq in H.
  repeat split; apply Bool.not_true_iff_false; intros H';
    repeat rewrite Bool.orb_true_iff in H'; repeat rewrite Bool.andb_true_iff in H';
    repeat rewrite Nat.leb_le in H'; repeat rewrite Nat.eqb_eq in H'; lia.
Qed.

Lemma normalize_mrz_line (l : string) :
  forallb is_mrz_char (list_ascii_of_string l) = true -> normalize_line l = l.
Proof.
  intros H. set (cs := list_ascii_of_string l) in H.
  assert (Hsp : forallb (fun c => negb (is_space c)) cs = true).
  { apply forallb_forall. intros c Hc. eapply forallb_forall in H; [|exact Hc].
    destruct (mrz_char_facts c H) as [-> _]. reflexivity. }
  assert (Hsp' : forallb (fun c => negb (is_space c)) (rev cs) = true).
  { apply forallb_forall. intros c Hc. apply in_rev in Hc.
    eapply forallb_forall in Hsp; [|exact Hc]. exact Hsp. }
  unfold normalize_line, trim, toUpperCase, remove_whitespace. fold cs.
  rewrite (drop_spaces_id cs Hsp), (drop_spaces_id (rev cs) Hsp'), rev_involutive.
  rewrite list_ascii_of_string_of_list_ascii.
  assert (Hup : map to_upper_char cs = cs).
  { rewrite <- (map_id cs) at 2. apply map_ext_in. intros c Hc.
    eapply forallb_forall in H; [|exact Hc].
    unfold to_upper_char. destruct (mrz_char_facts c H) as [_ [-> _]]. reflexivity. }
  rewrite list_ascii_of_string_of_list_ascii, Hup.
  rewrite (forallb_filter_id _ cs Hsp).
  apply string_of_list_ascii_of_string.
Qed.

(** Round trip: two or three valid MRZ lines joined with ['\n'] are
    returned by [detectMRZLines] unchanged and in order. *)
Theorem detectMRZLines_of_joined_lines (ls : list string)
  (Hlen : (List.length ls = 2 \/ List.length ls = 3)%nat)
  (Hmrz : Forall (fun l => MRZ_LINE_PATTERN l = true) ls) :
  detectMRZLines (String.concat newline ls) = Some ls.
Proof.
  assert (Hch : forall l, In l ls -> forallb is_mrz_char (list_ascii_of_string l) = true).
  { intros l Hl. rewrite Forall_forall in Hmrz. specialize (Hmrz l Hl).
    unfold MRZ_LINE_PATTERN in Hmrz. apply andb_prop in Hmrz. apply Hmrz. }
  destruct ls as [|l ls]; [cbn in Hlen; lia|].
  unfold detectMRZLines.
  rewrite split_lines_concat.
  2:{ apply Forall_forall. intros a Ha. apply forallb_forall. intros c Hc.
      pose proof (Hch a Ha) as Ha'. eapply forallb_forall in Ha'; [|exact Hc].
      destruct (mrz_char_facts c Ha') as [_ [_ ->]]. reflexivity. }
  rewrite map_ext_in with (g := fun x => x).
  2:{ intros a Ha. apply normalize_mrz_line. apply Hch. exact Ha. }
  rewrite map_id.
  rewrite (forallb_filter_id MRZ_LINE_PATTERN (l :: ls)).
  2:{ apply forallb_forall. intros a Ha. rewrite Forall_forall in Hmrz. apply Hmrz. exact Ha. }
  destruct ls as [|l2 [|l3 [|l4 ls]]]; cbn in Hlen |- *;
    try reflexivity; lia.
Qed.

Lemma detectMRZLines_of_joined_lines_witness :
  detectMRZLines (String.concat newline
    ["IDJOR1234567890<<<<<<<<<<<<<<<"; "8001014M3001012JOR<<<<<<<<<<<6"])
  = Some ["IDJOR1234567890<<<<<<<<<<<<<<<"; "8001014M3001012JOR<<<<<<<<<<<6"].
Proof.
  apply detectMRZLines_of_joined_lines; [left; reflexivity|].
  repeat constructor.
Defined.

End MRZFacts.

(** ** The overlay box of CameraOverlayCrop *)

Module OverlayStyleFacts.

Import OverlayStyle.

Local Open Scope Q_scope.

(** [overlayStyle] is [null] exactly when the layout has a zero width or
    height; otherwise the box lies inside the layout with non-negative
    extents. *)
Theorem overlayStyle_in_layout (rp : RectPercentage) (L : Layout)
  (Hw : 0 <= layout_width L) (Hh : 0 <= layout_height L) :
  (overlayStyle rp L = None <-> layout_width L == 0 \/ layout_height L == 0) /\
  (forall st, overlayStyle rp L = Some st ->
      0 <= style_left st /\ 0 <= style_width st /\
      style_left st + style_width st <= layout_width L /\
      0 <= style_top st /\ 0 <= style_height st /\
      style_top st + style_height st <= layout_height L).
Proof.
  destruct (RectFacts.normalize_rect_bounds rp) as [Hx1 [Hx12 [Hx2 [Hy1 [Hy12 Hy2]]]]].
  unfold overlayStyle. cbv zeta.
  set (n := normalize_rect rp) in *. clearbody n.
  destruct (Qeq_bool (layout_width L) 0) eqn:Ew.
  - apply Qeq_bool_eq in Ew. cbn [orb].
    split; [split; [intros _; left; exact Ew|reflexivity]|discriminate].
  - destruct (Qeq_bool (layout_height L) 0) eqn:Eh; cbn [orb].
    + apply Qeq_bool_eq in Eh.
      split; [split; [intros _; right; exact Eh|reflexivity]|discriminate].
    + apply Qeq_bool_neq in Ew. apply Qeq_bool_neq in Eh.
      split; [split; [discriminate|intros [E|E]; contradiction]|].
      intros st Hs. injection Hs as <-. clear Ew Eh.
      cbn [style_left style_top style_width style_height].
      repeat split; nra.
Qed.

Lemma overlayStyle_in_layout_witness :
  0 <= 100 /\ 0 <= 0 /\ overlayStyle DEFAULT_RECT (mkLayout 100 0) = None.
Proof.
  split; [discriminate|split; [discriminate|]].
  apply (overlayStyle_in_layout DEFAULT_RECT (mkLayout 100 0)); try discriminate.
  right. reflexivity.
Defined.

End OverlayStyleFacts.

(** ** Manual capture of IDScanner *)

Module ManualFacts.

Import IDScanner Manual.

Local Open Scope Q_scope.

Ltac nz := match goal with |- ~ _ == 0 => let E := fresh in intro E; lra end.

Lemma nonneg_affine (a b c : Q) : 0 <= a -> 0 <= b -> 0 <= c -> 0 <= a + b * c.
Proof.
  intros Ha Hb Hc. pose proof (Qmult_le_0_compat b c Hb Hc).
  remember (b * c) as X. lra.
Qed.

Lemma half_nonneg (a : Q) : 0 <= a -> 0 <= a / 2.
Proof. intros H. unfold Qdiv. change (/ 2) with (1 # 2). lra. Qed.

Lemma round_le (x : Q) : inject_Z (JS.round x) <= x + (1 # 2).
Proof. unfold JS.round. apply Qfloor_le. Qed.

Lemma origin_extent (cx pW w : Q) : 0 <= cx ->
  0 <= inject_Z (Z.max 0 (JS.round cx)) /\
  inject_Z (Z.max 0 (JS.round cx)) + Qmin (pW - cx) w <= pW + (1 # 2).
Proof.
  intros H. pose proof (GeometryFacts.round_nonneg cx H) as H0.
  rewrite Z.max_r by exact H0.
  pose proof (round_le cx). pose proof (Q.le_min_l (pW - cx) w).
  split; [|lra].
  change 0 with (inject_Z 0). rewrite <- Zle_Qle. exact H0.
Qed.

(** Shared by the two statements on the manual crop below. *)
Lemma calculateCropRegion_in_photo (pW pH vW vH fX fY fW fH : Q)
  (HpW : 0 < pW) (HpH : 0 < pH) (HvW : 0 < vW) (HvH : 0 < vH)
  (HfX : 0 <= fX) (HfY : 0 <= fY) :
  let a := calculateCropRegion pW pH vW vH fX fY fW fH in
  0 <= a_originX a /\ a_originX a + a_width a <= pW + (1 # 2) /\
  0 <= a_originY a /\ a_originY a + a_height a <= pH + (1 # 2).
Proof.
  unfold calculateCropRegion.
  destruct (Qlt_le_dec (vW / vH) (pW / pH)) as [Hlt|Hle];
    cbv beta iota zeta; cbn [a_originX a_originY a_width a_height].
  - assert (Hs : 0 < pH / vH) by (apply GeometryFacts.div_pos; assumption).
    assert (Hoff : 0 <= (pW - vW * (pH / vH)) / 2).
    { assert (E1 : vW * (pH / vH) == (vW / vH) * pH) by (field; nz).
      assert (E2 : (pW / pH) * pH == pW) by (field; nz).
      assert (L : (vW / vH) * pH < (pW / pH) * pH) by (apply Qmult_lt_r; assumption).
      apply half_nonneg.
      remember (vW * (pH / vH)) as X. remember ((vW / vH) * pH) as Y.
      remember ((pW / pH) * pH) as Z. lra. }
    assert (Hx : 0 <= (pW - vW * (pH / vH)) / 2 + fX * (pH / vH))
      by (apply nonneg_affine; [|exact HfX|apply Qlt_le_weak; exact Hs]; lra).
    assert (Hy : 0 <= 0 + fY * (pH / vH))
      by (apply nonneg_affine; [|exact HfY|apply Qlt_le_weak; exact Hs]; lra).
    destruct (origin_extent _ pW (inject_Z (JS.round (fW * (pH / vH)))) Hx) as [A B].
    destruct (origin_extent _ pH (inject_Z (JS.round (fH * (pH / vH)))) Hy) as [C D].
    repeat split; assumption.
  - assert (Hs : 0 < pW / vW) by (apply GeometryFacts.div_pos; assumption).
    assert (Hoff : 0 <= (pH - vH * (pW / vW)) / 2).
    { assert (E1 : vH * (pW / vW) == (pW / pH) * vH * pH / vW) by (field; split; nz).
      assert (L : (pW / pH) * vH <= (vW / vH) * vH) by (apply Qmult_le_r; assumption).
      assert (E2 : (vW / vH) * vH == vW) by (field; nz).
      assert (L2 : (pW / pH) * vH * pH / vW <= vW * pH / vW).
      { apply Qmult_le_r; [apply Qinv_lt_0_compat; exact HvW|].
        apply Qmult_le_r; [exact HpH|]. lra. }
      assert (E3 : vW * pH / vW == pH) by (field; nz).
      apply half_nonneg.
      remember (vH * (pW / vW)) as X. remember ((pW / pH) * vH * pH / vW) as Y.
      remember (vW * pH / vW) as Z. lra. }
    assert (Hx : 0 <= 0 + fX * (pW / vW))
      by (apply nonneg_affine; [|exact HfX|apply Qlt_le_weak; exact Hs]; lra).
    assert (Hy : 0 <= (pH - vH * (pW / vW)) / 2 + fY * (pW / vW))
      by (apply nonneg_affine; [|exact HfY|apply Qlt_le_weak; exact Hs]; lra).
    destruct (origin_extent _ pW (inject_Z (JS.round (fW * (pW / vW)))) Hx) as [A B].
    destruct (origin_extent _ pH (inject_Z (JS.round (fH * (pW / vW)))) Hy) as [C D].
    repeat split; assumption.
Qed.

(** With a positive photo and preview and a frame origin that is not
    negative, the manual crop starts inside the photo and ends at most
    half a pixel past its right and bottom edges (the origin is rounded,
    the extent bounded with the unrounded origin). *)
Theorem calculateCropRegion_within_photo (pW pH vW vH fX fY fW fH : Q)
  (HpW : 0 < pW) (HpH : 0 < pH) (HvW : 0 < vW) (HvH : 0 < vH)
  (HfX : 0 <= fX) (HfY : 0 <= fY) :
  let a := calculateCropRegion pW pH vW vH fX fY fW fH in
  0 <= a_originX a /\ a_originX a + a_width a <= pW + (1 # 2) /\
  0 <= a_originY a /\ a_originY a + a_height a <= pH + (1 # 2).
Proof. exact (calculateCropRegion_in_photo pW pH vW vH fX fY fW fH HpW HpH HvW HvH HfX HfY). Qed.

Lemma calculateCropRegion_within_photo_witness :
  let a := calculateCropRegion 1920 1080 400 800 30 300 340 (340 / (1586 # 1000)) in
  0 <= a_originX a /\ a_originX a + a_width a <= 1920 + (1 # 2) /\
  0 <= a_originY a /\ a_originY a + a_height a <= 1080 + (1 # 2).
Proof.
  apply (calculateCropRegion_within_photo 1920 1080 400 800 30 300 340 (340 / (1586 # 1000)));
    (reflexivity || discriminate).
Defined.

Lemma frame_origin_nonneg (ps : Layout) (r : Q) (Hw : 0 <= layout_width ps) (Hr : 0 < r)
  (Hfit : (17 # 20) * layout_width ps <= r * layout_height ps) :
  0 <= frameX (frameLayout ps r) /\ 0 <= frameY (frameLayout ps r).
Proof.
  unfold frameLayout, FRAME_WIDTH_PERCENT. cbn [frameX frameY]. split; apply half_nonneg.
  - lra.
  - assert (E : layout_width ps * (85 # 100) / r * r == (17 # 20) * layout_width ps)
      by (field; nz).
    assert (L : layout_width ps * (85 # 100) / r * r <= layout_height ps * r) by lra.
    apply Qmult_le_r in L; [|exact Hr]. lra.
Qed.

(** [frameLayout] centres the frame in the preview, makes it 85% of the
    preview width with the given aspect ratio, never puts its left edge
    outside the preview, and puts its top edge inside the preview exactly
    when [0.85 * width <= aspect * height]. *)
Theorem frameLayout_centred (ps : Layout) (r : Q) (Hw : 0 <= layout_width ps) (Hr : 0 < r) :
  let fl := frameLayout ps r in
  frameX fl + frameWidth fl + frameX fl == layout_width ps /\
  frameY fl + frameHeight fl + frameY fl == layout_height ps /\
  frameWidth fl == (17 # 20) * layout_width ps /\
  frameWidth fl == r * frameHeight fl /\
  0 <= frameX fl /\
  (0 <= frameY fl <-> (17 # 20) * layout_width ps <= r * layout_height ps).
Proof.
  cbv zeta. unfold frameLayout, FRAME_WIDTH_PERCENT. cbn [frameX frameY frameWidth frameHeight].
  split; [field|]. split; [field; nz|]. split; [ring|]. split; [field; nz|].
  split; [apply half_nonneg; lra|].
  assert (E : layout_width ps * (85 # 100) / r * r == (17 # 20) * layout_width ps)
    by (field; nz).
  split; intros H.
  - assert (H2 : 0 <= (layout_height ps - layout_width ps * (85 # 100) / r) * 2).
    { apply Qmult_le_0_compat; [|discriminate].
      unfold Qdiv at 1 in H. rewrite <- (Qmult_0_l (/ 2)) in H.
      apply Qmult_le_r in H; [exact H|reflexivity]. }
    assert (L : layout_width ps * (85 # 100) / r * r <= layout_height ps * r).
    { apply Qmult_le_compat_r; [|lra]. remember (layout_width ps * (85 # 100) / r) as X. lra. }
    lra.
  - apply half_nonneg.
    assert (L : layout_width ps * (85 # 100) / r * r <= layout_height ps * r) by lra.
    apply Qmult_le_r in L; [|exact Hr]. lra.
Qed.

Lemma frameLayout_centred_witness :
  let fl := frameLayout (mkLayout 400 800) FRAME_ASPECT_RATIO in
  frameX fl + frameWidth fl + frameX fl == 400.
Proof.
  apply (frameLayout_centred (mkLayout 400 800) FRAME_ASPECT_RATIO); (reflexivity || discriminate).
Defined.

Lemma crop_range (off f fw sc v p : Q) :
  0 <= off -> 0 <= f -> 0 <= fw -> f + fw <= v -> 0 < sc -> off + v * sc <= p ->
  0 <= off + f * sc /\ 0 <= fw * sc /\ off + f * sc + fw * sc <= p.
Proof.
  intros Ho Hf Hfw Hv Hs Hp.
  pose proof (Qmult_le_0_compat f sc Hf (Qlt_le_weak _ _ Hs)) as A.
  pose proof (Qmult_le_0_compat fw sc Hfw (Qlt_le_weak _ _ Hs)) as B.
  assert (C : (f + fw) * sc <= v * sc) by (apply Qmult_le_compat_r; [|apply Qlt_le_weak]; assumption).
  assert (E : (f + fw) * sc == f * sc + fw * sc) by ring.
  remember (f * sc) as X. remember (fw * sc) as Y. remember ((f + fw) * sc) as Z.
  remember (v * sc) as V. lra.
Qed.

Lemma crop_axis (cx cw pW : Q) (W : Z) : pW = inject_Z W ->
  0 <= cx -> 0 <= cw -> cx + cw <= pW ->
  0 <= inject_Z (Z.max 0 (JS.round cx)) /\ inject_Z (Z.max 0 (JS.round cx)) <= pW /\
  0 <= Qmin (pW - cx) (inject_Z (JS.round cw)) /\
  inject_Z (Z.max 0 (JS.round cx)) + Qmin (pW - cx) (inject_Z (JS.round cw)) <= pW + (1 # 2).
Proof.
  intros -> Hx Hw Hs.
  destruct (origin_extent cx (inject_Z W) (inject_Z (JS.round cw)) Hx) as [A B].
  split; [exact A|]. split; [|split; [|exact B]].
  - rewrite <- Zle_Qle. pose proof (round_le cx) as R.
    assert (L : inject_Z (JS.round cx) < inject_Z (W + 1))
      by (rewrite inject_Z_plus; change (inject_Z 1) with 1; lra).
    rewrite <- Zlt_Qlt in L.
    assert (W0 : (0 <= W)%Z) by (rewrite Zle_Qle; change (inject_Z 0) with 0; lra).
    lia.
  - apply Q.min_glb; [lra|].
    change 0 with (inject_Z 0). rewrite <- Zle_Qle. apply GeometryFacts.round_nonneg. exact Hw.
Qed.

(** [calculateCropRegion] for a frame inside the preview. *)
Lemma calculateCropRegion_frame_inside (pW pH vW vH fX fY fW fH : Q) (W H : Z)
  (EW : pW = inject_Z W) (EH : pH = inject_Z H)
  (HpW : 0 < pW) (HpH : 0 < pH) (HvW : 0 < vW) (HvH : 0 < vH)
  (HfX : 0 <= fX) (HfY : 0 <= fY) (HfW : 0 <= fW) (HfH : 0 <= fH)
  (HX : fX + fW <= vW) (HY : fY + fH <= vH) :
  let a := calculateCropRegion pW pH vW vH fX fY fW fH in
  (0 <= a_originX a /\ a_originX a <= pW /\ 0 <= a_width a /\
   a_originX a + a_width a <= pW + (1 # 2)) /\
  (0 <= a_originY a /\ a_originY a <= pH /\ 0 <= a_height a /\
   a_originY a + a_height a <= pH + (1 # 2)).
Proof.
  unfold calculateCropRegion.
  destruct (Qlt_le_dec (vW / vH) (pW / pH)) as [Hlt|Hle];
    cbv beta iota zeta; cbn [a_originX a_originY a_width a_height].
  - assert (Hs : 0 < pH / vH) by (apply GeometryFacts.div_pos; assumption).
    assert (E1 : vW * (pH / vH) == (vW / vH) * pH) by (field; nz).
    assert (E2 : (pW / pH) * pH == pW) by (field; nz).
    assert (L : (vW / vH) * pH < (pW / pH) * pH) by (apply Qmult_lt_r; assumption).
    assert (E3 : vH * (pH / vH) == pH) by (field; nz).
    remember (vW * (pH / vH)) as X. remember ((vW / vH) * pH) as Y.
    remember ((pW / pH) * pH) as Z. remember (vH * (pH / vH)) as V.
    assert (Ho : 0 <= (pW - X) / 2) by (apply half_nonneg; lra).
    assert (Ho' : (pW - X) / 2 + X <= pW)
      by (unfold Qdiv; change (/ 2) with (1 # 2); lra).
    subst X V.
    destruct (crop_range _ fX fW (pH / vH) vW pW Ho HfX HfW HX Hs Ho') as [A [B C]].
    assert (Hy0 : 0 <= 0) by apply Qle_refl.
    assert (Hy1 : 0 + vH * (pH / vH) <= pH) by lra.
    destruct (crop_range 0 fY fH (pH / vH) vH pH Hy0 HfY HfH HY Hs Hy1) as [D [F G]].
    split; [apply (crop_axis _ _ pW W EW A B C)|apply (crop_axis _ _ pH H EH D F G)].
  - assert (Hs : 0 < pW / vW) by (apply GeometryFacts.div_pos; assumption).
    assert (E1 : vH * (pW / vW) == (pW / pH) * vH * pH / vW) by (field; split; nz).
    assert (L : (pW / pH) * vH <= (vW / vH) * vH) by (apply Qmult_le_r; assumption).
    assert (E2 : (vW / vH) * vH == vW) by (field; nz).
    assert (L2 : (pW / pH) * vH * pH / vW <= vW * pH / vW).
    { apply Qmult_le_r; [apply Qinv_lt_0_compat; exact HvW|].
      apply Qmult_le_r; [exact HpH|]. lra. }
    assert (E3 : vW * pH / vW == pH) by (field; nz).
    assert (E4 : vW * (pW / vW) == pW) by (field; nz).
    remember (vH * (pW / vW)) as X. remember ((pW / pH) * vH * pH / vW) as Y.
    remember (vW * pH / vW) as Z. remember (vW * (pW / vW)) as V.
    assert (Ho : 0 <= (pH - X) / 2) by (apply half_nonneg; lra).
    assert (Ho' : (pH - X) / 2 + X <= pH)
      by (unfold Qdiv; change (/ 2) with (1 # 2); lra).
    assert (Hx1 : 0 + V <= pW) by lra.
    subst X V.
    assert (Hx0 : 0 <= 0) by apply Qle_refl.
    destruct (crop_range 0 fX fW (pW / vW) vW pW Hx0 HfX HfW HX Hs Hx1) as [A [B C]].
    destruct (crop_range _ fY fH (pW / vW) vH pH Ho HfY HfH HY Hs Ho') as [D [F G]].
    split; [apply (crop_axis _ _ pW W EW A B C)|apply (crop_axis _ _ pH H EH D F G)].
Qed.

Lemma frame_inside (ps : Layout) (r : Q) (Hw : 0 <= layout_width ps) (Hr : 0 < r)
  (Hfit : (17 # 20) * layout_width ps <= r * layout_height ps) :
  let fl := frameLayout ps r in
  0 <= frameX fl /\ 0 <= frameY fl /\ 0 <= frameWidth fl /\ 0 <= frameHeight fl /\
  frameX fl + frameWidth fl <= layout_width ps /\ frameY fl + frameHeight fl <= layout_height ps.
Proof.
  destruct (frame_origin_nonneg ps r Hw Hr Hfit) as [HfX HfY].
  cbv zeta. revert HfX HfY.
  unfold frameLayout, FRAME_WIDTH_PERCENT. cbn [frameX frameY frameWidth frameHeight].
  intros HfX HfY.
  assert (HfW : 0 <= layout_width ps * (85 # 100)) by lra.
  assert (HfH : 0 <= layout_width ps * (85 # 100) / r)
    by (apply Qmult_le_0_compat; [exact HfW|apply Qinv_le_0_compat, Qlt_le_weak; exact Hr]).
  remember (layout_width ps * (85 # 100) / r) as F.
  revert HfX HfY. unfold Qdiv. change (/ 2) with (1 # 2). intros HfX HfY.
  repeat split; lra.
Qed.

(** The crop [capturePhotoManually] takes from a positive photo, for a
    measured preview in which the frame fits vertically
    ([0.85 * width <= aspect * height]), starts inside the photo (origin
    in [0, dim]), has a non-negative extent, and ends at most half a pixel
    past the photo's right and bottom edges. *)
Theorem capturePhotoManually_crop_in_photo (photo : Photo) (ps : Layout) (r : Q)
  (HW : (1 <= photo_width photo)%Z) (HH : (1 <= photo_height photo)%Z)
  (Hpw : 0 < layout_width ps) (Hph : 0 < layout_height ps) (Hr : 0 < r)
  (Hfit : (17 # 20) * layout_width ps <= r * layout_height ps) :
  let a := capturePhotoManually_crop photo ps r in
  let W := inject_Z (photo_width photo) in
  let H := inject_Z (photo_height photo) in
  (0 <= a_originX a <= W /\ 0 <= a_width a /\ a_originX a + a_width a <= W + (1 # 2)) /\
  (0 <= a_originY a <= H /\ 0 <= a_height a /\ a_originY a + a_height a <= H + (1 # 2)).
Proof.
  destruct (frame_inside ps r (Qlt_le_weak _ _ Hpw) Hr Hfit)
    as [HfX [HfY [HfW [HfH [HX HY]]]]].
  destruct (calculateCropRegion_frame_inside
              (inject_Z (photo_width photo)) (inject_Z (photo_height photo))
              (layout_width ps) (layout_height ps)
              (frameX (frameLayout ps r)) (frameY (frameLayout ps r))
              (frameWidth (frameLayout ps r)) (frameHeight (frameLayout ps r))
              (photo_width photo) (photo_height photo) eq_refl eq_refl
              ltac:(apply GeometryFacts.inject_Z_pos; lia)
              ltac:(apply GeometryFacts.inject_Z_pos; lia)
              Hpw Hph HfX HfY HfW HfH HX HY)
    as [[A [B [C D]]] [E [F [G K]]]].
  unfold capturePhotoManually_crop. cbv zeta.
  repeat split; assumption.
Qed.

Lemma capturePhotoManually_crop_in_photo_witness :
  let a := capturePhotoManually_crop (mkPhoto 1080 1920) (mkLayout 400 800) FRAME_ASPECT_RATIO in
  a_originX a <= 1080.
Proof.
  destruct (capturePhotoManually_crop_in_photo (mkPhoto 1080 1920) (mkLayout 400 800)
    FRAME_ASPECT_RATIO ltac:(cbn; lia) ltac:(cbn; lia) ltac:(reflexivity)
    ltac:(reflexivity) ltac:(reflexivity) ltac:(discriminate))
    as [[[_ X] _] _].
  exact X.
Defined.

Lemma layout_events_app (l1 l2 : list (Q * Q)) (ps : Layout) :
  layout_events (l1 ++ l2) ps = layout_events l2 (layout_events l1 ps).
Proof.
  revert ps. induction l1 as [|[w h] l1 IH]; intros ps; [reflexivity|]. apply IH.
Qed.

Lemma layout_events_unmeasured (l : list (Q * Q)) (ps : Layout) :
  (forall w h, In (w, h) l -> w == 0 \/ h == 0) -> layout_events l ps = ps.
Proof.
  induction l as [|[w h] l IH]; intros Hz; [reflexivity|]. cbn.
  assert (E : handlePreviewLayout ps w h = ps).
  { unfold handlePreviewLayout.
    destruct (Hz w h (or_introl eq_refl)) as [E|E];
      apply Qeq_bool_iff in E; rewrite E; [reflexivity|].
    rewrite orb_true_r. reflexivity. }
  rewrite E. apply IH. intros w' h' Hin. apply Hz. right. exact Hin.
Qed.

(** [handlePreviewLayout]: after a sequence of layout events the preview
    size is the last event whose width and height are both non-zero;
    events with a zero width or height afterwards leave it unchanged. *)
Theorem layout_events_last_measured (pre post : list (Q * Q)) (w h : Q) (ps : Layout)
  (Hw : ~ w == 0) (Hh : ~ h == 0)
  (Hpost : forall w' h', In (w', h') post -> w' == 0 \/ h' == 0) :
  let ps' := layout_events (pre ++ (w, h) :: post) ps in
  layout_width ps' == w /\ layout_height ps' == h.
Proof.
  cbv zeta. rewrite layout_events_app. cbn [layout_events].
  rewrite (layout_events_unmeasured post _ Hpost).
  set (p := layout_events pre ps).
  unfold handlePreviewLayout.
  assert (Ew : Qeq_bool w 0 = false) by (apply not_true_iff_false; intro E; apply Hw, Qeq_bool_iff, E).
  assert (Eh : Qeq_bool h 0 = false) by (apply not_true_iff_false; intro E; apply Hh, Qeq_bool_iff, E).
  rewrite Ew, Eh. cbn [orb].
  destruct (Qeq_bool w (layout_width p)) eqn:E1; destruct (Qeq_bool h (layout_height p)) eqn:E2;
    cbn; try (split; reflexivity).
  apply Qeq_bool_iff in E1. apply Qeq_bool_iff in E2. split; symmetry; assumption.
Qed.

Lemma layout_events_last_measured_witness :
  layout_width (layout_events ([(0, 0); (300, 600)] ++ (400, 800) :: [(0, 800)]) (mkLayout 390 844))
  == 400.
Proof.
  apply (layout_events_last_measured [(0, 0); (300, 600)] [(0, 800)] 400 800 (mkLayout 390 844));
    try discriminate.
  intros w' h' [E|[]]. injection E as <- <-. left. reflexivity.
Defined.

End ManualFacts.

(** ** [capturePhoto] of NewIDScanner *)

Module NewIDFacts.

Import NewID.

Local Open Scope Q_scope.

(** For a rotated image of positive size, the crop of [capturePhoto] has
    its origin in [0, dim - 1], a non-negative extent and
    [origin + extent <= dim] on both axes, whatever the preview size. *)
Theorem capturePhoto_crop_bounds (ps : Layout) (imgW imgH : Z)
  (HW : (1 <= imgW)%Z) (HH : (1 <= imgH)%Z)
  (Hlw : 0 <= layout_width ps) (Hlh : 0 <= layout_height ps) :
  let c := capturePhoto_crop ps imgW imgH in
  (0 <= originX c <= imgW - 1)%Z /\ (0 <= width c)%Z /\ (originX c + width c <= imgW)%Z /\
  (0 <= originY c <= imgH - 1)%Z /\ (0 <= height c)%Z /\ (originY c + height c <= imgH)%Z.
Proof.
  assert (Hiw : 0 < inject_Z imgW) by (apply GeometryFacts.inject_Z_pos; lia).
  assert (Hih : 0 < inject_Z imgH) by (apply GeometryFacts.inject_Z_pos; lia).
  assert (Hpw : 0 < JS.or_num (layout_width ps) (inject_Z imgW))
    by (apply GeometryFacts.or_num_pos; assumption).
  assert (Hph : 0 < JS.or_num (layout_height ps) (inject_Z imgH))
    by (apply GeometryFacts.or_num_pos; assumption).
  set (sc := Qmin (JS.or_num (layout_width ps) (inject_Z imgW) / inject_Z imgW)
                  (JS.or_num (layout_height ps) (inject_Z imgH) / inject_Z imgH)).
  assert (Hsc : 0 < sc) by (apply Q.min_glb_lt; apply GeometryFacts.div_pos; assumption).
  assert (Hr : (0 <= JS.round (OVERLAY_SIZE / sc))%Z).
  { apply GeometryFacts.round_nonneg, Qlt_le_weak, GeometryFacts.div_pos; [reflexivity|exact Hsc]. }
  unfold capturePhoto_crop. cbv zeta. fold sc. cbn [originX originY width height].
  lia.
Qed.

Lemma capturePhoto_crop_bounds_witness :
  (0 <= originX (capturePhoto_crop (mkLayout 400 800) 1080 1920) <= 1079)%Z.
Proof.
  apply (capturePhoto_crop_bounds (mkLayout 400 800) 1080 1920); (lia || discriminate).
Defined.

Lemma clamp_ordered (a b : Q) : 0 <= a -> a <= b -> b <= 1 ->
  Qmin (Qmax 0 (Qmin a 1)) (Qmax 0 (Qmin b 1)) == a /\
  Qmax (Qmax 0 (Qmin a 1)) (Qmax 0 (Qmin b 1)) == b.
Proof.
  intros H0 Hab H1.
  assert (Ea : Qmax 0 (Qmin a 1) == a).
  { rewrite (Q.min_l a 1) by lra. apply Q.max_r. exact H0. }
  assert (Eb : Qmax 0 (Qmin b 1) == b).
  { rewrite (Q.min_l b 1) by exact H1. apply Q.max_r. lra. }
  split.
  - transitivity (Qmin a b); [apply Q.min_compat; assumption|apply Q.min_l; exact Hab].
  - transitivity (Qmax a b); [apply Q.max_compat; assumption|apply Q.max_r; exact Hab].
Qed.

Lemma centred_fraction (p : Q) : 300 <= p ->
  0 <= (p - 300) / 2 / p /\ (p - 300) / 2 / p <= (p + 300) / 2 / p /\ (p + 300) / 2 / p <= 1.
Proof.
  intros H. assert (Hp : 0 < p) by lra.
  assert (Hi : 0 <= / p) by (apply Qinv_le_0_compat; lra).
  unfold Qdiv. change (/ 2) with (1 # 2).
  split; [|split].
  - apply Qmult_le_0_compat; [lra|exact Hi].
  - apply Qmult_le_compat_r; [lra|exact Hi].
  - apply Qle_shift_div_r; [exact Hp|]. lra.
Qed.

(** For a measured preview at least as large as the 300x300 overlay,
    [capturePhoto] of NewIDScanner crops exactly what [grabImage] of
    CameraOverlayCrop crops in [contain] mode for the rectangle of the
    centred overlay, given as fractions of the preview. *)
Theorem capturePhoto_is_grabImage_contain (ps : Layout) (imgW imgH : Z)
  (HW : (1 <= imgW)%Z) (HH : (1 <= imgH)%Z)
  (Hpw : OVERLAY_SIZE <= layout_width ps) (Hph : OVERLAY_SIZE <= layout_height ps) :
  let pw := layout_width ps in
  let ph := layout_height ps in
  capturePhoto_crop ps imgW imgH =
  grabImage_crop Contain ps
    (mkRect ((pw - OVERLAY_SIZE) / 2 / pw) ((ph - OVERLAY_SIZE) / 2 / ph)
            ((pw + OVERLAY_SIZE) / 2 / pw) ((ph + OVERLAY_SIZE) / 2 / ph))
    (mkPhoto imgW imgH).
Proof.
  intros pw ph. unfold OVERLAY_SIZE in *.
  assert (Hpw0 : 0 < pw) by (unfold pw; lra).
  assert (Hph0 : 0 < ph) by (unfold ph; lra).
  assert (Hiw : 0 < inject_Z imgW) by (apply GeometryFacts.inject_Z_pos; lia).
  assert (Hih : 0 < inject_Z imgH) by (apply GeometryFacts.inject_Z_pos; lia).
  assert (Ow : JS.or_num pw (inject_Z imgW) = pw).
  { unfold JS.or_num. destruct (Qeq_bool pw 0) eqn:E; [|reflexivity].
    apply Qeq_bool_iff in E. lra. }
  assert (Oh : JS.or_num ph (inject_Z imgH) = ph).
  { unfold JS.or_num. destruct (Qeq_bool ph 0) eqn:E; [|reflexivity].
    apply Qeq_bool_iff in E. lra. }
  set (sc := Qmin (pw / inject_Z imgW) (ph / inject_Z imgH)).
  assert (Hsc : 0 < sc) by (apply Q.min_glb_lt; apply GeometryFacts.div_pos; assumption).
  destruct (clamp_ordered ((pw - 300) / 2 / pw) ((pw + 300) / 2 / pw)) as [Ex1 Ex2];
    [apply centred_fraction; exact Hpw..|].
  destruct (clamp_ordered ((ph - 300) / 2 / ph) ((ph + 300) / 2 / ph)) as [Ey1 Ey2];
    [apply centred_fraction; exact Hph..|].
  unfold capturePhoto_crop, grabImage_crop, grabImage_geometry. cbv zeta.
  cbn [photo_width photo_height x1 x2 y1 y2 normalize_rect rawX rawY rawW rawH].
  fold pw ph. rewrite Ow, Oh. fold sc. unfold OVERLAY_SIZE.
  match goal with
  | |- mkCrop (Z.max 0 (Z.min (JS.round ?a) _)) (Z.max 0 (Z.min (JS.round ?b) _))
              (Z.min (JS.round ?c) _) _
       = mkCrop (Z.max 0 (Z.min (JS.round ?a') _)) (Z.max 0 (Z.min (JS.round ?b') _))
                (Z.min (JS.round ?c') _) (Z.min (JS.round ?d') _) =>
    assert (Ea : a == a'); [|assert (Eb : b == b'); [|assert (Ec : c == c');
      [|assert (Ed : c' == d'); [|rewrite (GeometryFacts.round_compat _ _ Ea),
        (GeometryFacts.round_compat _ _ Eb), (GeometryFacts.round_compat _ _ Ec),
        (GeometryFacts.round_compat _ _ Ed); reflexivity]]]]
  end.
  - rewrite Ex1. field. split; ManualFacts.nz.
  - rewrite Ey1. field. split; ManualFacts.nz.
  - rewrite Ex1, Ex2. field. split; ManualFacts.nz.
  - rewrite Ex1, Ex2, Ey1, Ey2. field. split; [|split]; ManualFacts.nz.
Qed.

Lemma capturePhoto_is_grabImage_contain_witness :
  capturePhoto_crop (mkLayout 400 800) 1080 1920 =
  grabImage_crop Contain (mkLayout 400 800)
    (mkRect ((400 - OVERLAY_SIZE) / 2 / 400) ((800 - OVERLAY_SIZE) / 2 / 800)
            ((400 + OVERLAY_SIZE) / 2 / 400) ((800 + OVERLAY_SIZE) / 2 / 800))
    (mkPhoto 1080 1920).
Proof.
  apply (capturePhoto_is_grabImage_contain (mkLayout 400 800) 1080 1920); (lia || discriminate).
Defined.

End NewIDFacts.

(** ** Frame bounds and crop of VisionCropCamera *)

Module VisionFacts.

Import Vision.

Local Open Scope Q_scope.

Lemma frame_transform_pos (s : Screen) (fw fh : Q)
  (Hsw : 0 < SCREEN_WIDTH s) (Hsh : 0 < SCREEN_HEIGHT s) (Hfw : 0 < fw) (Hfh : 0 < fh) :
  let '(scaleX, scaleY, _, _) := frame_transform s fw fh in
  0 < scaleX /\ scaleY = scaleX.
Proof.
  unfold frame_transform.
  destruct (Qlt_le_dec (SCREEN_WIDTH s / SCREEN_HEIGHT s) (fw / fh)); cbv zeta;
    (split; [apply GeometryFacts.div_pos; assumption|reflexivity]).
Qed.

(** [getFrameBounds] with [isWithinFrame] accepts every point of the
    on-screen guide frame, mapped to frame coordinates by the
    [getFrameBounds] scale and offsets, for a screen at least 40 wide
    ([FRAME_WIDTH >= 0]) and a frame of positive size. *)
Theorem getFrameBounds_contains_guide (s : Screen) (fw fh px py : Q)
  (Hsw : 40 <= SCREEN_WIDTH s) (Hsh : 0 < SCREEN_HEIGHT s) (Hfw : 0 < fw) (Hfh : 0 < fh)
  (Hx : FRAME_X s <= px <= FRAME_X s + FRAME_WIDTH s)
  (Hy : FRAME_Y s <= py <= FRAME_Y s + FRAME_HEIGHT s) :
  let '(scaleX, scaleY, offsetX, offsetY) := frame_transform s fw fh in
  isWithinFrame (px * scaleX + offsetX) (py * scaleY + offsetY) (getFrameBounds s fw fh) = true.
Proof.
  assert (HFW : 0 <= FRAME_WIDTH s) by (unfold FRAME_WIDTH; lra).
  assert (HFH : 0 <= FRAME_HEIGHT s).
  { unfold FRAME_HEIGHT, Qdiv. apply Qmult_le_0_compat; [exact HFW|discriminate]. }
  pose proof (frame_transform_pos s fw fh ltac:(lra) Hsh Hfw Hfh) as Hpos.
  unfold getFrameBounds.
  destruct (frame_transform s fw fh) as [[[sx sy] ox] oy].
  destruct Hpos as [Hsx ->].
  assert (A1 : FRAME_X s * sx <= px * sx) by (apply Qmult_le_compat_r; lra).
  assert (A2 : px * sx <= (FRAME_X s + FRAME_WIDTH s) * sx) by (apply Qmult_le_compat_r; lra).
  assert (B1 : FRAME_Y s * sx <= py * sx) by (apply Qmult_le_compat_r; lra).
  assert (B2 : py * sx <= (FRAME_Y s + FRAME_HEIGHT s) * sx) by (apply Qmult_le_compat_r; lra).
  unfold isWithinFrame, BOUNDS_PADDING. cbn [b_left b_right b_top b_bottom].
  remember (FRAME_X s * sx) as X0. remember (px * sx) as X1.
  remember ((FRAME_X s + FRAME_WIDTH s) * sx) as X2.
  remember (FRAME_Y s * sx) as Y0. remember (py * sx) as Y1.
  remember ((FRAME_Y s + FRAME_HEIGHT s) * sx) as Y2.
  repeat (apply andb_true_intro; split); apply Qle_bool_iff; lra.
Qed.

Lemma getFrameBounds_contains_guide_witness :
  let s := mkScreen 400 800 in
  let '(scaleX, scaleY, offsetX, offsetY) := frame_transform s 1920 1080 in
  isWithinFrame (200 * scaleX + offsetX) (400 * scaleY + offsetY) (getFrameBounds s 1920 1080)
  = true.
Proof.
  apply (getFrameBounds_contains_guide (mkScreen 400 800) 1920 1080 200 400);
    try (split; apply Qle_bool_iff; reflexivity);
    first [discriminate | reflexivity].
Defined.

Lemma round_mono (x y : Q) : x <= y -> (JS.round x <= JS.round y)%Z.
Proof. intros H. unfold JS.round. apply Qfloor_resp_le. lra. Qed.

Lemma round_split (m F : Q) (n : Z) :
  (0 <= JS.round (Qmax 0 m))%Z /\
  (JS.round (Qmax 0 m) + JS.round (Qmin F (inject_Z n - Qmax 0 m)) <= n + 1)%Z.
Proof.
  assert (H0 : 0 <= Qmax 0 m) by apply Q.le_max_l.
  split; [apply GeometryFacts.round_nonneg; exact H0|].
  pose proof (round_mono _ _ (Q.le_min_r F (inject_Z n - Qmax 0 m))) as Hm.
  pose proof (ManualFacts.round_le (Qmax 0 m)) as H1.
  pose proof (ManualFacts.round_le (inject_Z n - Qmax 0 m)) as H2.
  assert (H3 : (JS.round (Qmax 0 m) + JS.round (inject_Z n - Qmax 0 m) <= n + 1)%Z).
  { rewrite Zle_Qle, !inject_Z_plus. change (inject_Z 1) with 1. lra. }
  lia.
Qed.

Lemma crop_of_image_bounds (s : Screen) (iw ih : Z) (L : Layout) :
  let c := crop_of_image s (inject_Z iw) (inject_Z ih) L in
  (0 <= originX c)%Z /\ (originX c + width c <= iw + 1)%Z /\
  (0 <= originY c)%Z /\ (originY c + height c <= ih + 1)%Z.
Proof.
  unfold crop_of_image.
  destruct (Qlt_le_dec (layout_width L / layout_height L) (inject_Z iw / inject_Z ih));
    cbv zeta; cbn [originX originY width height];
    match goal with
    | |- context [JS.round (Qmin ?F (inject_Z iw - Qmax 0 ?m))] =>
        destruct (round_split m F iw) as [A B]
    end;
    match goal with
    | |- context [JS.round (Qmin ?F (inject_Z ih - Qmax 0 ?m))] =>
        destruct (round_split m F ih) as [C D]
    end;
    repeat split; assumption.
Qed.

(** The crop of [takeAndCropPhoto], in both VisionCropCamera components,
    never has a negative origin and ends at most one pixel past the right
    and bottom edges of the image size it computed (the origin and the
    extent are rounded separately); the first component uses the
    platform-dependent size, the second the swap by orientation. *)
Theorem takeAndCropPhoto_crop_bounds (s : Screen) (os : Rotation.Platform)
  (o : Rotation.Orientation) (photo : Photo) (L : Layout)
  (Hlw : 0 < layout_width L) (Hlh : 0 < layout_height L) :
  (let '(iw, ih) := Rotation.effective_dims os o (photo_width photo) (photo_height photo) L in
   let c := takeAndCropPhoto_crop s os o photo L in
   (0 <= originX c)%Z /\ (originX c + width c <= iw + 1)%Z /\
   (0 <= originY c)%Z /\ (originY c + height c <= ih + 1)%Z) /\
  (let '(iw, ih) := Rotation.effective_dims Rotation.IOS o (photo_width photo) (photo_height photo) L in
   let c := takeAndCropPhoto_crop2 s o photo L in
   (0 <= originX c)%Z /\ (originX c + width c <= iw + 1)%Z /\
   (0 <= originY c)%Z /\ (originY c + height c <= ih + 1)%Z).
Proof.
  split.
  - unfold takeAndCropPhoto_crop.
    destruct (Rotation.effective_dims os o (photo_width photo) (photo_height photo) L) as [iw ih].
    apply crop_of_image_bounds.
  - unfold takeAndCropPhoto_crop2, Rotation.effective_dims.
    destruct o; apply crop_of_image_bounds.
Qed.

Lemma takeAndCropPhoto_crop_bounds_witness :
  (originX (takeAndCropPhoto_crop (mkScreen 400 800) Rotation.IOS Rotation.LandscapeLeft
             (mkPhoto 1920 1080) (mkLayout 400 800))
   + width (takeAndCropPhoto_crop (mkScreen 400 800) Rotation.IOS Rotation.LandscapeLeft
             (mkPhoto 1920 1080) (mkLayout 400 800)) <= 1080 + 1)%Z.
Proof.
  apply (takeAndCropPhoto_crop_bounds (mkScreen 400 800) Rotation.IOS Rotation.LandscapeLeft
    (mkPhoto 1920 1080) (mkLayout 400 800)); reflexivity.
Defined.

End VisionFacts.

(** ** The OCR test of VisionCropCamera *)

Module OCRFacts.

Import Strings.String Strings.Ascii MRZ OCR.

Local Open Scope string_scope.

Lemma upper_cons (c : ascii) (r : string) :
  toUpperCase (String c r) = String (to_upper_char c) (toUpperCase r).
Proof. reflexivity. Qed.

Lemma lower_cons (c : ascii) (r : string) :
  toLowerCase (String c r) = String (to_lower_char c) (toLowerCase r).
Proof. reflexivity. Qed.

Lemma match_digits10_cons (c : ascii) (r : string) :
  match_digits10 (String c r) = digits10_at (String c r) || match_digits10 r.
Proof. reflexivity. Qed.

Lemma includes_cons (c : ascii) (r p : string) :
  includes (String c r) p = prefix p (String c r) || includes r p.
Proof. reflexivity. Qed.

Lemma lower_upper_char (c : ascii) : to_lower_char (to_upper_char c) = to_lower_char c.
Proof. destruct c as [[] [] [] [] [] [] [] []]; reflexivity. Qed.

Lemma digit_upper_char (c : ascii) : is_digit (to_upper_char c) = is_digit c.
Proof. destruct c as [[] [] [] [] [] [] [] []]; reflexivity. Qed.

Lemma lower_of_upper (s : string) : toLowerCase (toUpperCase s) = toLowerCase s.
Proof.
  induction s as [|c s IH]; [reflexivity|].
  rewrite upper_cons, !lower_cons, IH, lower_upper_char. reflexivity.
Qed.

Lemma length_upper (s : string) : String.length (toUpperCase s) = String.length s.
Proof. induction s as [|c s IH]; [reflexivity|]. rewrite upper_cons. cbn. rewrite IH. reflexivity. Qed.

Lemma substring_upper (n : nat) (s : string) :
  substring 0 n (toUpperCase s) = toUpperCase (substring 0 n s).
Proof.
  revert n. induction s as [|c s IH]; intros [|n]; try reflexivity.
  rewrite upper_cons. cbn [substring]. rewrite IH, upper_cons. reflexivity.
Qed.

Lemma digits_upper (s : string) :
  forallb is_digit (list_ascii_of_string (toUpperCase s)) = forallb is_digit (list_ascii_of_string s).
Proof.
  induction s as [|c s IH]; [reflexivity|].
  rewrite upper_cons. cbn [list_ascii_of_string forallb]. rewrite IH, digit_upper_char. reflexivity.
Qed.

Lemma match_digits10_upper (s : string) : match_digits10 (toUpperCase s) = match_digits10 s.
Proof.
  induction s as [|c s IH]; [reflexivity|].
  rewrite upper_cons, !match_digits10_cons, IH.
  f_equal. rewrite <- upper_cons. unfold digits10_at. rewrite length_upper, substring_upper, digits_upper. reflexivity.
Qed.

(** The OCR test of the frame processors is case-insensitive on ASCII
    text: upper-casing the recognised text never changes whether an ID is
    detected (the digits are unchanged, the keywords are searched in the
    lower-cased text). *)
Theorem idDetected_text_upper (text : string) :
  idDetected_text (toUpperCase text) = idDetected_text text.
Proof. unfold idDetected_text. rewrite lower_of_upper, match_digits10_upper. reflexivity. Qed.

Lemma append_assoc (a b c : string) : (a ++ b) ++ c = a ++ (b ++ c).
Proof. induction a as [|x a IH]; cbn; [reflexivity|]. rewrite IH. reflexivity. Qed.

Lemma length_append (a b : string) : String.length (a ++ b) = (String.length a + String.length b)%nat.
Proof. induction a as [|x a IH]; cbn; [reflexivity|]. rewrite IH. reflexivity. Qed.

Lemma lower_app (a b : string) : toLowerCase (a ++ b) = toLowerCase a ++ toLowerCase b.
Proof.
  induction a as [|x a IH]; [reflexivity|].
  change (String x a ++ b) with (String x (a ++ b)). rewrite !lower_cons, IH. reflexivity.
Qed.

Lemma prefix_app (p t u : string) : prefix p t = true -> prefix p (t ++ u) = true.
Proof.
  revert p. induction t as [|b t IH]; intros [|a p] H.
  - destruct u; reflexivity.
  - cbn in H. discriminate H.
  - reflexivity.
  - change (String b t ++ u) with (String b (t ++ u)). cbn in H |- *.
    destruct (ascii_dec a b); [apply IH; exact H|discriminate H].
Qed.

Lemma includes_app (t u p : string) : includes t p = true -> includes (t ++ u) p = true.
Proof.
  induction t as [|c t IH]; intros H.
  - change (prefix p EmptyString || false = true) in H. rewrite orb_false_r in H.
    change (EmptyString ++ u) with u.
    destruct u as [|c u].
    + change (prefix p EmptyString || false = true). rewrite H. reflexivity.
    + rewrite includes_cons.
      pose proof (prefix_app p EmptyString (String c u) H) as H'.
      change (EmptyString ++ String c u) with (String c u) in H'.
      rewrite H'. reflexivity.
  - change (String c t ++ u) with (String c (t ++ u)).
    rewrite includes_cons in H |- *. apply orb_true_iff in H as [H|H].
    + apply orb_true_iff. left. exact (prefix_app p (String c t) u H).
    + rewrite (IH H). apply orb_true_r.
Qed.

Lemma substring_app (n : nat) (t u : string) :
  (n <= String.length t)%nat -> substring 0 n (t ++ u) = substring 0 n t.
Proof.
  revert n. induction t as [|c t IH]; intros [|n] Hn; try reflexivity.
  - destruct u; reflexivity.
  - cbn in Hn. lia.
  - change (String c t ++ u) with (String c (t ++ u)). cbn [substring].
    rewrite IH; [reflexivity|]. cbn in Hn. lia.
Qed.

Lemma digits10_at_app (t u : string) : digits10_at t = true -> digits10_at (t ++ u) = true.
Proof.
  unfold digits10_at. intros H. apply andb_prop in H as [H1 H2].
  apply Nat.leb_le in H1.
  rewrite length_append, substring_app by exact H1. rewrite H2, andb_true_r.
  apply Nat.leb_le. lia.
Qed.

Lemma match_digits10_app (t u : string) :
  match_digits10 t = true -> match_digits10 (t ++ u) = true.
Proof.
  induction t as [|c t IH]; intros H.
  - cbn in H. discriminate.
  - change (String c t ++ u) with (String c (t ++ u)).
    rewrite match_digits10_cons in H |- *. apply orb_true_iff in H as [H|H].
    + apply orb_true_iff. left. exact (digits10_at_app (String c t) u H).
    + rewrite (IH H). apply orb_true_r.
Qed.

Lemma idDetected_text_app (t u : string) :
  idDetected_text t = true -> idDetected_text (t ++ u) = true.
Proof.
  unfold idDetected_text. rewrite lower_app. intros H.
  apply andb_prop in H as [H H3]. apply andb_prop in H as [H1 H2].
  rewrite (match_digits10_app _ _ H1), (includes_app _ _ _ H2), (includes_app _ _ _ H3).
  reflexivity.
Qed.

Lemma concat_app (sep : string) (l1 l2 : list string) : l1 <> [] ->
  exists u, String.concat sep (l1 ++ l2) = String.concat sep l1 ++ u.
Proof.
  intros Hne. induction l1 as [|x l1 IH]; [contradiction|].
  destruct l1 as [|y l1].
  - destruct l2 as [|z l2].
    + exists EmptyString. cbn. rewrite MRZFacts.append_empty_r. reflexivity.
    + exists (sep ++ String.concat sep (z :: l2)). reflexivity.
  - destruct IH as [u Hu]; [discriminate|].
    exists u.
    transitivity (x ++ sep ++ String.concat sep ((y :: l1) ++ l2)); [reflexivity|].
    change (String.concat sep (x :: y :: l1)) with (x ++ sep ++ String.concat sep (y :: l1)).
    rewrite Hu, !append_assoc. reflexivity.
Qed.

(** Appending OCR blocks never turns a detection off: if the blocks of a
    frame already contain a national ID number and both keywords inside
    the bounds, so do these blocks followed by any others. *)
Theorem idDetected_more_blocks (bounds : Vision.Bounds) (blocks more : list Block)
  (Hdet : idDetected bounds blocks = true) :
  idDetected bounds (blocks ++ more) = true.
Proof.
  unfold idDetected in *. unfold filteredText in *. rewrite flat_map_app.
  destruct blocks as [|b blocks]; [discriminate|]. cbn [List.length] in Hdet |- *.
  rewrite length_app. cbn [Nat.ltb Nat.leb] in Hdet |- *.
  set (F := flat_map (block_text_in bounds) (b :: blocks)) in *.
  destruct F as [|t F'] eqn:EF; [discriminate|]. cbn [List.length Nat.ltb Nat.leb] in Hdet |- *.
  destruct (concat_app " " (t :: F') (flat_map (block_text_in bounds) more)) as [u Hu];
    [discriminate|].
  cbn [List.app List.length Nat.ltb Nat.leb]. rewrite <- app_comm_cons in Hu.
  rewrite Hu. apply idDetected_text_app. exact Hdet.
Qed.

Lemma idDetected_more_blocks_witness :
  let bounds := Vision.mkBounds 0 0 100 100 in
  let blk := fun t => mkBlock (Some (mkBlockFrame 10 10 20 20 None None)) (Some t) in
  idDetected bounds [blk "Hashemite Kingdom"; blk "Name 9871234567"] = true /\
  idDetected bounds ([blk "Hashemite Kingdom"; blk "Name 9871234567"] ++ [blk "extra"]) = true.
Proof.
  split; [vm_compute; reflexivity|].
  apply idDetected_more_blocks. vm_compute. reflexivity.
Defined.

(** A block whose centre lies outside the bounds (or that has no frame)
    has no effect on the OCR test, wherever it appears among the blocks. *)
Theorem idDetected_ignores_outside_block (bounds : Vision.Bounds) (l1 l2 : list Block)
  (b : Block)
  (Hout : forall bf, blockFrame b = Some bf ->
     Vision.isWithinFrame (center (boundingCenterX bf) (bf_x bf + bf_width bf / 2))
                          (center (boundingCenterY bf) (bf_y bf + bf_height bf / 2)) bounds
     = false) :
  idDetected bounds (l1 ++ b :: l2) = idDetected bounds (l1 ++ l2).
Proof.
  assert (Hb : block_text_in bounds b = []).
  { unfold block_text_in. destruct (blockFrame b) as [bf|]; [|reflexivity].
    rewrite (Hout bf eq_refl). reflexivity. }
  assert (HF : filteredText bounds (l1 ++ b :: l2) = filteredText bounds (l1 ++ l2)).
  { unfold filteredText. rewrite !flat_map_app. cbn [flat_map]. rewrite Hb. reflexivity. }
  unfold idDetected. rewrite HF.
  destruct (filteredText bounds (l1 ++ l2)) as [|t F] eqn:EF.
  - destruct (0 <? List.length (l1 ++ b :: l2))%nat, (0 <? List.length (l1 ++ l2))%nat;
      reflexivity.
  - assert (Hl : (0 < List.length (l1 ++ l2))%nat).
    { destruct (l1 ++ l2)%list eqn:E; [|cbn; lia].
      unfold filteredText in EF. discriminate EF. }
    assert (Hl' : (0 < List.length (l1 ++ b :: l2))%nat)
      by (rewrite length_app in Hl |- *; cbn; lia).
    apply Nat.ltb_lt in Hl, Hl'. rewrite Hl, Hl'. reflexivity.
Qed.

Lemma idDetected_ignores_outside_block_witness :
  let bounds := Vision.mkBounds 0 0 100 100 in
  let blk := fun t => mkBlock (Some (mkBlockFrame 10 10 20 20 None None)) (Some t) in
  idDetected bounds ([blk "Hashemite"] ++
      mkBlock (Some (mkBlockFrame 500 500 20 20 None None)) (Some "Name 9871234567")
      :: [blk "Name"])
  = idDetected bounds ([blk "Hashemite"] ++ [blk "Name"]).
Proof.
  apply idDetected_ignores_outside_block.
  intros bf E. injection E as <-. vm_compute. reflexivity.
Defined.

End OCRFacts.

(** ** The detection latch of the second VisionCropCamera component *)

Module LatchFacts.

Import Latch.

Lemma handle_potential (e : LEvent) (c : LState) : is_press e = false ->
  (captures (handle e c)
     + (if textDetected (handle e c) && negb (isCapturing (handle e c)) then 1 else 0)
   <= captures c + (if textDetected c && negb (isCapturing c) then 1 else 0)
      + (if is_match e then 1 else 0))%nat.
Proof.
  intros Hp. destruct c as [td dt ic ci cm n].
  destruct e as [[]| | |ok|]; try discriminate; unfold handle, onTextDetected,
    takeAndCropPhoto_start, takeAndCropPhoto_finish; cbn;
    destruct td, dt, ic, ci, cm; cbn; lia.
Qed.

Lemma run_potential (es : list LEvent) (c : LState) :
  forallb (fun e => negb (is_press e)) es = true ->
  (captures (run es c)
     + (if textDetected (run es c) && negb (isCapturing (run es c)) then 1 else 0)
   <= captures c + (if textDetected c && negb (isCapturing c) then 1 else 0)
      + List.length (filter is_match es))%nat.
Proof.
  revert c. induction es as [|e es IH]; intros c Hnp; cbn; [lia|].
  apply andb_prop in Hnp as [He Hes]. apply negb_true_iff in He.
  pose proof (handle_potential e c He) as H1. specialize (IH (handle e c) Hes).
  destruct (is_match e); cbn [List.length] in *; lia.
Qed.

(** Without the capture button, the second VisionCropCamera component
    calls [takePhoto] at most once per frame in which the OCR test
    matched: each automatic capture consumes the [textDetected] flag that
    only [onTextDetected] sets. *)
Theorem auto_captures_bounded_by_matches (es : list LEvent) (mounted : bool)
  (Hnp : forallb (fun e => negb (is_press e)) es = true) :
  (captures (run es (initial mounted)) <= List.length (filter is_match es))%nat.
Proof. pose proof (run_potential es (initial mounted) Hnp). cbn in H. lia. Qed.

Lemma auto_captures_bounded_by_matches_witness :
  forallb (fun e => negb (is_press e))
    [Frame true; AutoEffect; Frame true; AutoEffect; Finish true; Retake; Frame false; AutoEffect]
  = true /\
  (captures (run [Frame true; AutoEffect; Frame true; AutoEffect; Finish true; Retake;
                  Frame false; AutoEffect] (initial true)) <= 2)%nat.
Proof.
  split; [reflexivity|].
  apply (auto_captures_bounded_by_matches
    [Frame true; AutoEffect; Frame true; AutoEffect; Finish true; Retake; Frame false; AutoEffect]
    true).
  reflexivity.
Defined.

End LatchFacts.

(** ** More on the detection debounce *)

Module DebounceTiming.

Import Debounce.

Local Open Scope Z_scope.

Lemma step_in_window (m : bool) (t t0 : Z) (s : DState)
  (Ht : t0 <= t < t0 + HOLD_DURATION_MS)
  (Hh : forall hs, holdStartTime s = Some hs -> t0 <= hs)
  (Hp : detectionPhase s <> Ready) :
  (forall hs, holdStartTime (step m t s) = Some hs -> t0 <= hs) /\
  detectionPhase (step m t s) <> Ready.
Proof.
  unfold step, onDetectionSuccess, onDetectionMissed.
  destruct m, (isCapturing s); try (split; assumption).
  - destruct (holdStartTime s) as [hs|] eqn:E.
    + specialize (Hh hs eq_refl).
      destruct (HOLD_DURATION_MS <=? t - hs) eqn:L.
      * apply Z.leb_le in L. lia.
      * cbn. split; [intros hs' Hs; injection Hs as <-; exact Hh|exact Hp].
    + cbn. split; [intros hs' Hs; injection Hs as <-; lia|discriminate].
  - destruct (holdStartTime s) as [hs|] eqn:E; [|split; [rewrite E|]; assumption].
    destruct (DETECTION_GRACE_MS <=? _); cbn; [split; [discriminate|discriminate]|].
    split; [rewrite E|]; assumption.
Qed.

(** [Ready] is never reached within the first [HOLD_DURATION_MS]: if
    every frame of a trace from the initial state comes at a time in
    [[t0, t0 + 1000)], no frame of it leaves the state [Ready]. *)
Theorem no_ready_within_hold (evs : list (bool * Z)) (t0 : Z)
  (Ht : Forall (fun e => t0 <= snd e < t0 + HOLD_DURATION_MS) evs) :
  ~ In Ready (phases evs initial).
Proof.
  assert (G : forall s, (forall hs, holdStartTime s = Some hs -> t0 <= hs) ->
                        detectionPhase s <> Ready -> ~ In Ready (phases evs s)).
  { induction evs as [|[m t] evs IH]; intros s Hh Hp; [intros []|].
    inversion Ht as [|e l He Hrest]; subst. cbn in He.
    destruct (step_in_window m t t0 s He Hh Hp) as [Hh' Hp'].
    cbn. intros [E|Hin]; [exact (Hp' E)|].
    exact (IH Hrest (step m t s) Hh' Hp' Hin). }
  apply G; [discriminate|discriminate].
Qed.

Lemma no_ready_within_hold_witness :
  Forall (fun e => 0 <= snd e < 0 + HOLD_DURATION_MS)
    [(true, 0); (true, 500); (false, 600); (true, 700); (true, 999)] /\
  ~ In Ready (phases [(true, 0); (true, 500); (false, 600); (true, 700); (true, 999)] initial).
Proof.
  assert (F : Forall (fun e => 0 <= snd e < 0 + HOLD_DURATION_MS)
    [(true, 0); (true, 500); (false, 600); (true, 700); (true, 999)])
    by (repeat constructor; cbn; unfold HOLD_DURATION_MS; lia).
  split; [exact F|]. exact (no_ready_within_hold _ 0 F).
Defined.

Lemma run_app (evs1 evs2 : list (bool * Z)) (s : DState) :
  run (evs1 ++ evs2) s = run evs2 (run evs1 s).
Proof. revert s. induction evs1 as [|[m t] evs1 IH]; intros s; [reflexivity|]. apply IH. Qed.

Lemma run_matched_keeps_hold (rest : list (bool * Z)) (s : DState) (t0 : Z) :
  holdStartTime s = Some t0 -> isCapturing s = false ->
  Forall (fun e => fst e = true) rest ->
  holdStartTime (run rest s) = Some t0 /\ isCapturing (run rest s) = false.
Proof.
  revert s. induction rest as [|[m t] rest IH]; intros s Hh Hc Hm; [split; assumption|].
  inversion Hm as [|e l He Hrest]; subst. cbn in He. subst m.
  cbn. apply IH; [| |exact Hrest]; unfold step, onDetectionSuccess; rewrite Hc, Hh;
    destruct (HOLD_DURATION_MS <=? t - t0); reflexivity.
Qed.

(** A detection held without a miss reaches [Ready]: from the initial
    state, a first match at [t0], any number of further matches, and a
    match at a time [t] at least [HOLD_DURATION_MS] after [t0] leave the
    state in phase [Ready]. *)
Theorem held_detection_reaches_ready (t0 t : Z) (rest : list (bool * Z))
  (Hm : Forall (fun e => fst e = true) rest)
  (Ht : t0 + HOLD_DURATION_MS <= t) :
  detectionPhase (run ((true, t0) :: rest ++ [(true, t)]) initial) = Ready.
Proof.
  cbn [run]. rewrite run_app.
  destruct (run_matched_keeps_hold rest (step true t0 initial) t0 eq_refl eq_refl Hm)
    as [Hh Hc].
  cbn [run]. unfold step at 1, onDetectionSuccess. rewrite Hc, Hh.
  replace (HOLD_DURATION_MS <=? t - t0) with true; [reflexivity|].
  symmetry. apply Z.leb_le. lia.
Qed.

Lemma held_detection_reaches_ready_witness :
  Forall (fun e => fst e = true) [(true, 400); (true, 800)] /\ (0 + HOLD_DURATION_MS <= 1000) /\
  detectionPhase (run ((true, 0) :: [(true, 400); (true, 800)] ++ [(true, 1000)]) initial)
  = Ready.
Proof.
  assert (F : Forall (fun e => fst e = true) [(true, 400); (true, 800)])
    by (repeat constructor).
  assert (T : 0 + HOLD_DURATION_MS <= 1000) by (unfold HOLD_DURATION_MS; lia).
  split; [exact F|split; [exact T|]].
  exact (held_detection_reaches_ready 0 1000 _ F T).
Defined.

End DebounceTiming.
